(* ===================================================================== *)
(* go-tail: a shallow embedding of the tailing engine (tail.go) and of   *)
(* the polling file watcher (watch/polling.go), with the properties of   *)
(* the specification stated and proved over it.                          *)
(* ===================================================================== *)

From Equations Require Import Equations.
From Stdlib.Strings Require Import String Byte.
From Stdlib Require Import ZArith List Bool Lia.
Import ListNotations.

Local Open Scope Z_scope.

(* --------------------------------------------------------------------- *)
(* Go values                                                             *)
(* --------------------------------------------------------------------- *)

(** A Go [string] or [[]byte]: a sequence of bytes. *)
Definition bytes := list byte.

(** Go's [len], an [int]. *)
Definition len (s : bytes) : Z := Z.of_nat (length s).

(** Go's slice expression [s[lo:hi]] for [0 <= lo <= hi <= len s]. *)
Definition slice (s : bytes) (lo hi : Z) : bytes :=
  firstn (Z.to_nat (hi - lo)) (skipn (Z.to_nat lo) s).

(** Outcome of a Go call that may panic. *)
Inductive result (A : Type) : Type :=
| Ok (a : A)
| Panic (msg : string).
Arguments Ok {A} a.
Arguments Panic {A} msg.

(** Whether a call panicked. *)
Definition panics {A : Type} (r : result A) : bool :=
  match r with Panic _ => true | Ok _ => false end.

(** Byte literals for examples. *)
Definition b (s : string) : bytes := list_byte_of_string s.

Definition LF : byte := x0a.
Definition CR : byte := x0d.

(** Go [error] values met by the engine and the watcher.  [Errorf] is an
    error built by [fmt.Errorf] or [Killf] around a cause. *)
Inductive error : Type :=
| EOF                       (* io.EOF *)
| ErrBufferFull             (* bufio.ErrBufferFull *)
| ErrNotExist               (* an error for which os.IsNotExist holds *)
| ErrDying                  (* tomb.ErrDying *)
| ErrOther (msg : string)   (* any other error of the operating system *)
| Errorf (what : string) (cause : error).

Definition IsNotExist (e : error) : bool :=
  match e with ErrNotExist => true | _ => false end.

Definition isEOF (e : error) : bool :=
  match e with EOF => true | _ => false end.

(* --------------------------------------------------------------------- *)
(* bufio.Reader of Go's standard library, as tail.go uses it             *)
(* --------------------------------------------------------------------- *)

Module Bufio.

(** [bufio.NewReader] allocates a buffer of 4096 bytes. *)
Definition defaultBufSize : nat := 4096.

(** A reader over a file: the size of its buffer and the bytes between the
    read position and the end of the file, buffered or not. *)
Record Reader : Type := mkReader { size : nat; unread : bytes }.

Definition NewReader (file : bytes) : Reader := mkReader defaultBufSize file.

(** Index of the first occurrence of [c], as [bytes.IndexByte]. *)
Fixpoint indexByte (u : bytes) (c : byte) : option nat :=
  match u with
  | [] => None
  | x :: u' => if Byte.eqb x c then Some O else option_map S (indexByte u' c)
  end.

(** [ReadSlice]: up to and including the first delimiter when it lies
    within one buffer; a full buffer with [ErrBufferFull] when the buffer
    fills first; what is left with [io.EOF] when the file ends first. *)
Definition ReadSlice (r : Reader) (delim : byte) : bytes * option error * Reader :=
  match indexByte (firstn (size r) (unread r)) delim with
  | Some i =>
      (firstn (S i) (unread r), None, mkReader (size r) (skipn (S i) (unread r)))
  | None =>
      if (size r <=? length (unread r))%nat
      then (firstn (size r) (unread r), Some ErrBufferFull,
            mkReader (size r) (skipn (size r) (unread r)))
      else (unread r, Some EOF, mkReader (size r) [])
  end.

(** [line[len(line)-1] == c] guarded by [len(line) > 0]. *)
Definition endsWith (line : bytes) (c : byte) : bool :=
  match rev line with
  | x :: _ => Byte.eqb x c
  | [] => false
  end.

(** [ReadLine]: the line (a nil slice as [None]), [isPrefix], the error
    and the reader after the call.  On a full buffer a trailing carriage
    return is put back; a returned line has its ["\n"] or ["\r\n"]
    dropped; an empty read with an error gives a nil line. *)
Definition ReadLine (r : Reader) : option bytes * bool * option error * Reader :=
  let '(line, err, r') := ReadSlice r LF in
  match err with
  | Some ErrBufferFull =>
      if endsWith line CR
      then (Some (removelast line), true, None,
            mkReader (size r') (CR :: unread r'))
      else (Some line, true, None, r')
  | _ =>
      if len line =? 0 then
        (match err with Some _ => None | None => Some line end, false, err, r')
      else if endsWith line LF then
        let drop := if (1 <? len line) && endsWith (removelast line) CR
                    then 2 else 1 in
        (Some (slice line 0 (len line - drop)), false, None, r')
      else (Some line, false, None, r')
  end.

End Bufio.

(* --------------------------------------------------------------------- *)
(* tail.go                                                               *)
(* --------------------------------------------------------------------- *)

Module Tail.

(** [time.Time] as read off a clock: the number of the reading. *)
Definition Time := nat.

Record Line : Type := mkLine { Text : bytes; Time_ : Time }.

Record Config : Type := mkConfig {
  Location : Z;
  Follow : bool;
  ReOpen : bool;
  MustExist : bool;
  Poll : bool;
  MaxLineSize : Z
}.

(** The [for] loop of [partitionString], entered with the current
    [start], [end] and [parts].  [length] is [len s] throughout.  An
    iteration that does not [break] has [end < length] after clipping, so
    [length - end] decreases as long as [chunkSize] is positive; the sum
    [end + chunkSize] is then below [2 * len s], within the range of [int]
    for any string that fits in memory. *)
Equations? partitionLoop (s : bytes) (chunkSize : Z) (Hpos : 0 < chunkSize)
    (start end_ : Z) (parts : list bytes) : list bytes
    by wf (Z.to_nat (len s - end_)) lt :=
  partitionLoop s chunkSize Hpos start end_ parts
    with Z_gt_le_dec end_ (len s) => {
    | left _ => parts ++ [slice s start (len s)]
    | right _ with Z.eq_dec end_ (len s) => {
      | left _ => parts ++ [slice s start end_]
      | right _ =>
          partitionLoop s chunkSize Hpos end_ (end_ + chunkSize)
                        (parts ++ [slice s start end_]) } }.
Proof. lia. Qed.

(** [partitionString]: panics on a chunk size that is not positive,
    otherwise runs the loop from [start = 0], [end = chunkSize]. *)
Definition partitionString (s : bytes) (chunkSize : Z) : result (list bytes) :=
  match Z_lt_le_dec 0 chunkSize with
  | right _ => Panic "invalid chunkSize"
  | left Hpos => Ok (partitionLoop s chunkSize Hpos 0 chunkSize [])
  end.

(** The body of [if line != nil { ... }] in [tailFileSync]: the lines
    sent on [tail.Lines] for one line read at clock reading [now], in the
    order of the sends. *)
Definition emitLine (cfg : Config) (line : bytes) (now : Time) : result (list Line) :=
  if (0 <? MaxLineSize cfg) && (MaxLineSize cfg <? len line) then
    match partitionString line (MaxLineSize cfg) with
    | Ok parts => Ok (map (fun part => mkLine part now) parts)
    | Panic msg => Panic msg
    end
  else Ok [mkLine line now].

(** Two's-complement wrap-around of [int64] arithmetic. *)
Definition wrap64 (z : Z) : Z := (z + 2 ^ 63) mod 2 ^ 64 - 2 ^ 63.

(** The least value of [int] and [int64]. *)
Definition min_int : Z := - 2 ^ 63.

(** The greatest value of [int] and [int64]. *)
Definition max_int : Z := 2 ^ 63 - 1.

Definition SEEK_SET : Z := 0.
Definition SEEK_END : Z := 2.

(** The [offset] and [whence] that [tailFileSync] hands to [Seek], from
    [tail.Location]; [offset] starts as the zero value of [int64]. *)
Definition seekTarget (location : Z) : Z * Z :=
  if location >=? 0 then (location, SEEK_SET)
  else if location <? 0 then (wrap64 (wrap64 (-1 * location) - 1), SEEK_SET)
  else (0, SEEK_END).

(** [os.File.Seek] on a freshly opened file, for a position that the
    file system of the file accepts: the new position, or an error when
    it would be negative or [whence] is unknown.  Every position from 0 to
    the size of the file is one that every file system accepts; how far
    past the end of the file a position may lie differs from one file
    system to the other, and the properties of this file keep to
    positions within the file. *)
Definition Seek (file : bytes) (offset whence : Z) : Z + error :=
  let pos := if whence =? 0 then offset
             else if whence =? 1 then offset
             else if whence =? 2 then len file + offset
             else -1 in
  if pos <? 0 then inr (ErrOther "invalid argument") else inl pos.

(** [os.Open] on each path: the content of the file, or the error. *)
Definition FileSystem := string -> bytes + error.

Inductive WatcherKind : Type := PollingFileWatcher | InotifyFileWatcher.

(** The [Tail] struct as [TailFile] fills it in; [file] is [None] for a
    nil handle. *)
Record Tail : Type := mkTail {
  Filename : string;
  config : Config;
  watcher : WatcherKind;
  file : option bytes
}.

(** What a call of [TailFile] does: panic, or return an error, or return
    the session. *)
Inductive Returned : Type :=
| RetPanic (msg : string)
| RetErr (err : error)
| RetTail (t : Tail).

(** [scheduled] tells whether [go t.tailFileSync()] was executed. *)
Record Started : Type := mkStarted { returned : Returned; scheduled : bool }.

Definition TailFile (fs : FileSystem) (filename : string) (cfg : Config) : Started :=
  if ReOpen cfg && negb (Follow cfg) then
    mkStarted (RetPanic "cannot set ReOpen without Follow.") false
  else
    let t := mkTail filename cfg
               (if Poll cfg then PollingFileWatcher else InotifyFileWatcher)
               None in
    if MustExist cfg then
      match fs filename with
      | inr err => mkStarted (RetErr err) false
      | inl f => mkStarted (RetTail (mkTail (Filename t) (config t) (watcher t) (Some f))) true
      end
    else mkStarted (RetTail t) true.

(** [tail.readLine]: [ReadLine] with [isPrefix] discarded. *)
Definition readLine (r : Bufio.Reader) : option bytes * option error * Bufio.Reader :=
  let '(line, _, err, r') := Bufio.ReadLine r in (line, err, r').

(** Where the driver task stands once it can go no further on its own. *)
Inductive Status : Type :=
| Closed (err : option error)   (* tail.close() ran, the task returned;
                                   [err] is what Kill received *)
| WaitingForFile                (* inside BlockUntilExists *)
| WaitingForChanges             (* inside the select on changes and Dying *)
| Panicked (msg : string).

(** The [for] loop of [tailFileSync] on a file that does not change, with
    a consumer that receives every line and nobody calling [Stop]: it runs
    until [readLine] reports an error.  [now] is the next reading of the
    clock.  Returns the lines sent on [tail.Lines], in order, and the
    status reached; [None] only when [fuel] iterations do not suffice. *)
Fixpoint readLoop (fuel : nat) (cfg : Config) (r : Bufio.Reader) (now : Time)
    : option (list Line * Status) :=
  match fuel with
  | O => None
  | S fuel' =>
      match readLine r with
      | (Some line, None, r') =>
          match emitLine cfg line now with
          | Ok sent =>
              match readLoop fuel' cfg r' (S now) with
              | Some (more, st) => Some (sent ++ more, st)
              | None => None
              end
          | Panic msg => Some ([], Panicked msg)
          end
      | (None, None, r') => readLoop fuel' cfg r' now
      | (_, Some err, _) =>
          if isEOF err then
            if Follow cfg then Some ([], WaitingForChanges)
            else Some ([], Closed None)
          else Some ([], Closed (Some (Errorf "Error reading" err)))
      end
  end.

(** [tail.reopen] on a file system that does not change: the handle, or
    the wait for the file to appear, or the error. *)
Definition reopen (fs : FileSystem) (filename : string) : bytes + Status :=
  match fs filename with
  | inl f => inl f
  | inr err =>
      if IsNotExist err then inr WaitingForFile
      else inr (Closed (Some (Errorf "Unable to open file" err)))
  end.

(** [tailFileSync] under the same conditions. *)
Definition tailFileSync (fuel : nat) (fs : FileSystem) (t : Tail)
    : option (list Line * Status) :=
  let opened := if MustExist (config t)
                then match file t with
                     | Some f => inl f
                     | None => inr (Closed (Some (Errorf "Seek error" (ErrOther "invalid argument"))))
                     end
                else reopen fs (Filename t) in
  match opened with
  | inr st => Some ([], st)
  | inl f =>
      let '(offset, whence) := seekTarget (Location (config t)) in
      match Seek f offset whence with
      | inr err => Some ([], Closed (Some (Errorf "Seek error" err)))
      | inl pos =>
          readLoop fuel (config t) (Bufio.NewReader (skipn (Z.to_nat pos) f)) O
      end
  end.

(** The content of a file written as the complete lines [ls], each
    followed by its newline. *)
Definition fileOfLines (ls : list bytes) : bytes :=
  concat (map (fun l => l ++ [LF]) ls).

(** A line that the engine passes on in one piece: it holds no newline,
    fits in the reader's buffer with its newline, does not end in a
    carriage return, and is not longer than a positive [MaxLineSize]. *)
Definition plainLine (cfg : Config) (l : bytes) : Prop :=
  ~ In LF l
  /\ (length l < Bufio.defaultBufSize)%nat
  /\ Bufio.endsWith l CR = false
  /\ (MaxLineSize cfg <= 0 \/ len l <= MaxLineSize cfg).

(** The lines [ls] as sent one per clock reading, from [now] on. *)
Fixpoint stamp (now : Time) (ls : list bytes) : list Line :=
  match ls with
  | [] => []
  | l :: ls' => mkLine l now :: stamp (S now) ls'
  end.

(** A content with its newline bytes taken out. *)
Definition stripNewlines (f : bytes) : bytes :=
  filter (fun x => negb (Byte.eqb x LF)) f.

(** The content of a file written as the lines [ls], each followed by a
    carriage return and a newline. *)
Definition fileOfLinesCRLF (ls : list bytes) : bytes :=
  concat (map (fun l => l ++ [CR; LF]) ls).

(** What is left of the run when the file is read to its end. *)
Definition atEnd (cfg : Config) : Status :=
  if Follow cfg then WaitingForChanges else Closed None.

(** Ceiling of [L / k] for positive [k]. *)
Definition ceil_div (L k : Z) : Z := (L + k - 1) / k.

End Tail.

(* --------------------------------------------------------------------- *)
(* tail.go: the driver task, the consumer and Stop as a transition system *)
(* --------------------------------------------------------------------- *)

Module Driver.
Import Tail.

(** Where the goroutine of [tailFileSync] stands. *)
Inductive PC : Type :=
| AtStart                  (* entry, before tail.reopen() *)
| AtSeek                   (* file open, before tail.file.Seek *)
| AtRead                   (* top of the for loop, before tail.readLine() *)
| AtSend (q : list Line)   (* in [tail.Lines <-] for the head of [q];
                              the tail of [q] is still to be sent *)
| AtSelect                 (* in the select on changes and tail.Dying() *)
| AtCheck                  (* at the select on tail.Dying() with default *)
| Crashed (msg : string)   (* panicked *)
| Exited.                  (* returned; the deferred tail.Done() ran *)

Record State : Type := mkState {
  pc : PC;
  dying : bool;             (* tomb: Kill was called *)
  reason : option error;    (* tomb: the error Kill recorded *)
  done : bool;              (* tomb: Done was called *)
  linesCloses : nat;        (* executions of close(tail.Lines) *)
  fileOpen : bool;          (* tail.file is an open handle *)
  opens : nat;              (* handles obtained from os.Open *)
  closes : nat;             (* handles given to Close *)
  watching : bool;          (* changes != nil *)
  now : Time;               (* next reading of the clock *)
  received : list Line      (* lines the consumer took from tail.Lines *)
}.

(** What happens next: a call of the driver returning with a result that
    the environment decides, a receive by the consumer, an outcome of a
    select, or a call of [Kill] from outside, as [Stop] makes. *)
Inductive Action : Type :=
| Reopen (res : option error)                 (* tail.reopen() returns *)
| SeekRes (res : option error)                (* tail.file.Seek returns *)
| ReadRes (line : option bytes) (err : option error)  (* tail.readLine() *)
| Recv                                        (* consumer: <-tail.Lines *)
| Changed                                     (* select: value from changes *)
| ChangesClosed (res : option error)          (* select: changes closed;
                                                 [res] is what tail.reopen()
                                                 returns if it is called *)
| SelectDying                                 (* select: <-tail.Dying() *)
| CheckDying                                  (* the select with default *)
| Kill (err : option error).                  (* tail.Kill(err) from outside *)

(** [tomb.Kill]: the tomb is dying; the first error given is kept. *)
Definition kill (err : option error) (st : State) : State :=
  mkState (pc st) true
          (match reason st with Some e => Some e | None => err end)
          (done st) (linesCloses st) (fileOpen st) (opens st) (closes st)
          (watching st) (now st) (received st).

(** [tail.close()]: closes [tail.Lines], and the file when there is one. *)
Definition close (st : State) : State :=
  mkState (pc st) (dying st) (reason st) (done st) (S (linesCloses st))
          false (opens st)
          (if fileOpen st then S (closes st) else closes st)
          (watching st) (now st) (received st).

(** [return] from [tailFileSync]: the deferred [tail.Done()] runs. *)
Definition ret (st : State) : State :=
  mkState Exited (dying st) (reason st) true (linesCloses st) (fileOpen st)
          (opens st) (closes st) (watching st) (now st) (received st).

Definition goto (p : PC) (st : State) : State :=
  mkState p (dying st) (reason st) (done st) (linesCloses st) (fileOpen st)
          (opens st) (closes st) (watching st) (now st) (received st).

Definition setWatching (w : bool) (st : State) : State :=
  mkState (pc st) (dying st) (reason st) (done st) (linesCloses st)
          (fileOpen st) (opens st) (closes st) w (now st) (received st).

(** The body of [tail.reopen()] when it returns [res]: the old handle is
    closed, and a new one is held if the call succeeded. *)
Definition reopened (res : option error) (st : State) : State :=
  mkState (pc st) (dying st) (reason st) (done st) (linesCloses st)
          (match res with None => true | Some _ => false end)
          (match res with None => S (opens st) | Some _ => opens st end)
          (if fileOpen st then S (closes st) else closes st)
          (watching st) (now st) (received st).

Definition deliver (l : Line) (q : list Line) (st : State) : State :=
  mkState (match q with [] => AtCheck | _ => AtSend q end)
          (dying st) (reason st) (done st) (linesCloses st) (fileOpen st)
          (opens st) (closes st) (watching st) (now st) (received st ++ [l]).

Definition tick (st : State) : State :=
  mkState (pc st) (dying st) (reason st) (done st) (linesCloses st)
          (fileOpen st) (opens st) (closes st) (watching st) (S (now st))
          (received st).

(** The session as [TailFile] leaves it when it schedules the driver:
    with [MustExist] the file is already open. *)
Definition init (cfg : Config) : State :=
  mkState (if MustExist cfg then AtSeek else AtStart) false None false O
          (MustExist cfg) (if MustExist cfg then 1%nat else O) O false O [].

(** One step; [None] when the action cannot happen in the state. *)
Definition step (cfg : Config) (st : State) (a : Action) : option State :=
  match a, pc st with
  | Kill err, _ => Some (kill err st)
  | Reopen None, AtStart => Some (goto AtSeek (reopened None st))
  | Reopen (Some err), AtStart =>
      Some (ret (kill (Some err) (close (reopened (Some err) st))))
  | SeekRes None, AtSeek => Some (goto AtRead st)
  | SeekRes (Some err), AtSeek =>
      Some (ret (kill (Some (Errorf "Seek error" err)) (close st)))
  | ReadRes (Some line) None, AtRead =>
      match emitLine cfg line (now st) with
      | Ok [] => Some (goto AtCheck (tick st))
      | Ok q => Some (goto (AtSend q) (tick st))
      | Panic msg => Some (goto (Crashed msg) (tick st))
      end
  | ReadRes None None, AtRead => Some (goto AtCheck st)
  | ReadRes _ (Some err), AtRead =>
      if isEOF err then
        if watching st then Some (goto AtSelect st)
        else if Follow cfg then Some (goto AtSelect (setWatching true st))
        else Some (ret (close st))
      else Some (ret (kill (Some (Errorf "Error reading" err)) (close st)))
  | Recv, AtSend (l :: q) => Some (deliver l q st)
  | Changed, AtSelect => Some (goto AtCheck st)
  | ChangesClosed res, AtSelect =>
      if ReOpen cfg then
        match res with
        | Some err => Some (ret (kill (Some err) (close (reopened res st))))
        | None => Some (goto AtRead (setWatching false (reopened res st)))
        end
      else Some (ret (close st))
  | SelectDying, AtSelect =>
      if dying st then Some (ret (close st)) else None
  | CheckDying, AtCheck =>
      if dying st then Some (ret (close st)) else Some (goto AtRead st)
  | _, _ => None
  end.

(** A run: the actions of a trace one after the other. *)
Fixpoint exec (cfg : Config) (st : State) (trace : list Action) : option State :=
  match trace with
  | [] => Some st
  | a :: trace' =>
      match step cfg st a with
      | Some st' => exec cfg st' trace'
      | None => None
      end
  end.

(** What holds of every state of a run: the task is done exactly when it
    has exited; [tail.Lines] was closed once if it is done and not at all
    before; every handle obtained was closed once, but for the one still
    held, and none is held after the exit. *)
Record Inv (st : State) : Prop := mkInv {
  inv_done : done st = true <-> pc st = Exited;
  inv_lines : linesCloses st = if done st then 1%nat else O;
  inv_file : opens st = (closes st + (if fileOpen st then 1 else 0))%nat;
  inv_held : done st = true -> fileOpen st = false
}.

Definition isRecv (a : Action) : bool :=
  match a with Recv => true | _ => false end.

(** [tail.Wait()]: blocks until [Done] was called, then returns the
    error the tomb recorded; [None] while it blocks.  [Stop] is
    [Kill(nil)] followed by [Wait]. *)
Definition Wait (st : State) : option (option error) :=
  if done st then Some (reason st) else None.

(** Actions that bring no error into the session: calls that return nil
    or [io.EOF], and [Kill(nil)]. *)
Definition quiet (a : Action) : bool :=
  match a with
  | Reopen (Some _) | SeekRes (Some _) | ChangesClosed (Some _)
  | Kill (Some _) => false
  | ReadRes _ (Some err) => isEOF err
  | _ => true
  end.

(** A [readLine] that returns a line. *)
Definition isRead (a : Action) : bool :=
  match a with ReadRes (Some _) None => true | _ => false end.

Definition countReads (trace : list Action) : nat :=
  length (filter isRead trace).

Definition isKill (a : Action) : bool :=
  match a with Kill _ => true | _ => false end.

(** The lines of the send in progress that the consumer has not taken. *)
Definition pending (st : State) : list Line :=
  match pc st with AtSend q => q | _ => [] end.

(** What the reads of a trace put on [tail.Lines], the clock at [now]. *)
Fixpoint emitted (cfg : Config) (now : Time) (trace : list Action) : list Line :=
  match trace with
  | [] => []
  | ReadRes (Some line) None :: trace' =>
      match emitLine cfg line now with
      | Ok q => q
      | Panic _ => []
      end ++ emitted cfg (S now) trace'
  | _ :: trace' => emitted cfg now trace'
  end.

(** The actions of the driver on a file that does not change, read
    through [r], with a consumer that receives every line and nobody
    calling [Kill]: each read, the receives of its lines and the check
    that ends the iteration, up to the read that reports an error. *)
Fixpoint schedule (fuel : nat) (cfg : Config) (r : Bufio.Reader) (now : Time)
    : list Action :=
  match fuel with
  | O => []
  | S fuel' =>
      match readLine r with
      | (Some line, None, r') =>
          ReadRes (Some line) None
          :: match emitLine cfg line now with
             | Ok q => repeat Recv (length q)
                       ++ CheckDying :: schedule fuel' cfg r' (S now)
             | Panic _ => []
             end
      | (None, None, r') =>
          ReadRes None None :: CheckDying :: schedule fuel' cfg r' now
      | (line, Some err, _) => [ReadRes line (Some err)]
      end
  end.

(** The select taking a case of [changes]. *)
Definition isChange (a : Action) : bool :=
  match a with Changed | ChangesClosed _ => true | _ => false end.

(** A step of the driver itself: neither a receive by the consumer nor
    a [Kill] from outside. *)
Definition isOwn (a : Action) : bool := negb (isRecv a) && negb (isKill a).

Definition ownSteps (trace : list Action) : nat :=
  length (filter isOwn trace).

(** How many steps of its own a dying driver is from its exit at most,
    when its select takes the case of [Dying]. *)
Definition rank (p : PC) : nat :=
  match p with
  | AtStart => 4
  | AtSeek => 3
  | AtRead => 2
  | AtSend _ | AtSelect | AtCheck => 1
  | Crashed _ | Exited => 0
  end.

(** The places the driver can be at: it never panics, and a send has
    at least one line to send. *)
Definition sound (p : PC) : bool :=
  match p with
  | Crashed _ | AtSend [] => false
  | _ => true
  end.

(** How many more lines a dying driver may still read before it exits. *)
Definition budget (p : PC) : nat :=
  match p with
  | AtStart | AtSeek | AtRead | AtSelect => 1
  | AtSend _ | AtCheck | Crashed _ | Exited => 0
  end.

End Driver.

(* --------------------------------------------------------------------- *)
(* cmd: the command-line wrapper                                         *)
(* --------------------------------------------------------------------- *)

Module Cmd.
Import Tail.

(** The flags as [flag.Parse] found them on the command line; [None] for
    a flag that is not given. *)
Record Flags : Type := mkFlags {
  flag_n : option Z;
  flag_f : option bool;
  flag_F : option bool;
  flag_p : option bool
}.

Definition orDefault {A : Type} (v : option A) (d : A) : A :=
  match v with Some x => x | None => d end.

(** [args2config]: each [flag.XxxVar] stores the flag's default in its
    field, [flag.Parse] then stores the values given, and [ReOpen] turns
    [Follow] on. *)
Definition args2config (fl : Flags) : Config :=
  let config := mkConfig 0 true false false false 0 in
  let config := mkConfig (orDefault (flag_n fl) 0) (Follow config)
                  (ReOpen config) (MustExist config) (Poll config)
                  (MaxLineSize config) in
  let config := mkConfig (Location config) (orDefault (flag_f fl) false)
                  (ReOpen config) (MustExist config) (Poll config)
                  (MaxLineSize config) in
  let config := mkConfig (Location config) (Follow config)
                  (orDefault (flag_F fl) false) (MustExist config)
                  (Poll config) (MaxLineSize config) in
  let config := mkConfig (Location config) (Follow config) (ReOpen config)
                  (MustExist config) (orDefault (flag_p fl) false)
                  (MaxLineSize config) in
  if ReOpen config
  then mkConfig (Location config) true (ReOpen config) (MustExist config)
         (Poll config) (MaxLineSize config)
  else config.

End Cmd.

(* --------------------------------------------------------------------- *)
(* watch/polling.go                                                      *)
(* --------------------------------------------------------------------- *)

Module Watch.

(** What the watcher reads of an [os.FileInfo]: size, modification time
    and the identity that [os.SameFile] compares (device and inode). *)
Record FileInfo : Type := mkFileInfo { Size : Z; ModTime : Z; ident : Z * Z }.

Definition SameFile (f1 f2 : FileInfo) : bool :=
  (fst (ident f1) =? fst (ident f2)) && (snd (ident f1) =? snd (ident f2)).

(** Result of [os.Stat]. *)
Inductive StatResult : Type :=
| StatOk (fi : FileInfo)
| StatErr (err : error).

(** The calls made on [changes]. *)
Inductive Signal : Type := NotifyModified | NotifyTruncated | NotifyDeleted.

(** The variables the monitoring goroutine keeps between wakes. *)
Record PollState : Type := mkPollState {
  fwSize : Z;          (* fw.Size *)
  prevSize : Z;
  prevModTime : Z
}.

(** How one pass through the loop body ends. *)
Inductive Next : Type :=
| Continue (st : PollState)    (* next iteration *)
| Return                       (* the goroutine returns, changes.Close() *)
| PanicWith (err : error).     (* panic(err) *)

(** The zero value of [time.Time], which [prevModTime] starts as.  No
    time that [os.Stat] returns is equal to it. *)
Definition zeroTime : Z := 0.

(** A file as [os.Stat] reports it: its modification time is not the
    zero [time.Time]. *)
Definition statted (fi : FileInfo) : Prop := ModTime fi <> zeroTime.

(** State at the start of the goroutine of [ChangeEvents]: [fw.Size] and
    [prevSize] are the size of [origFi], [prevModTime] is the zero time. *)
Definition initial (origFi : FileInfo) : PollState :=
  mkPollState (Size origFi) (Size origFi) zeroTime.

(** The loop body of the goroutine after [time.Sleep]: the signals sent
    and how the pass ends, from the result of [os.Stat]. *)
Definition wake (origFi : FileInfo) (st : PollState) (r : StatResult)
    : list Signal * Next :=
  match r with
  | StatErr err =>
      if IsNotExist err then ([NotifyDeleted], Return)
      else ([], PanicWith err)
  | StatOk fi =>
      if negb (SameFile origFi fi) then ([NotifyDeleted], Return)
      else
        let size := Size fi in
        if (prevSize st >? 0) && (prevSize st >? size) then
          ([NotifyTruncated], Continue (mkPollState size size (prevModTime st)))
        else
          let modTime := ModTime fi in
          if negb (modTime =? prevModTime st) then
            ([NotifyModified], Continue (mkPollState size size modTime))
          else ([], Continue (mkPollState size size (prevModTime st)))
  end.

(** The goroutine over successive wakes: each entry tells whether the tomb
    is dying when the loop looks and what [os.Stat] returns after the
    sleep.  Returns all signals sent and how the goroutine ended, [None]
    while it is still running after the last entry. *)
Fixpoint monitor (origFi : FileInfo) (st : PollState)
    (wakes : list (bool * StatResult)) : list Signal * option Next :=
  match wakes with
  | [] => ([], None)
  | (dying, r) :: rest =>
      if dying then ([], Some Return)
      else
        match wake origFi st r with
        | (sigs, Continue st') =>
            let '(more, fin) := monitor origFi st' rest in (sigs ++ more, fin)
        | (sigs, fin) => (sigs, Some fin)
        end
  end.

(** [BlockUntilExists] over successive rounds: each entry gives what
    [os.Stat] returns and whether the tomb is dying before the poll timer
    fires.  Returns the error ([None] for nil), or [None] while the call
    is still waiting after the last entry. *)
Fixpoint BlockUntilExists (rounds : list (StatResult * bool))
    : option (option error) :=
  match rounds with
  | [] => None
  | (StatOk _, _) :: _ => Some None
  | (StatErr err, dying) :: rest =>
      if negb (IsNotExist err) then Some (Some err)
      else if dying then Some (Some ErrDying)
      else BlockUntilExists rest
  end.

(** Wakes at which the file, when it is there, is never smaller than it
    was last seen, from the size [p] on. *)
Fixpoint neverShrinks (p : Z) (wakes : list (bool * StatResult)) : Prop :=
  match wakes with
  | [] => True
  | (_, StatOk fi) :: rest => p <= Size fi /\ neverShrinks (Size fi) rest
  | (_, StatErr _) :: rest => neverShrinks p rest
  end.

End Watch.

(* ===================================================================== *)
(* Properties                                                            *)
(* ===================================================================== *)

Section SliceFacts.

Lemma len_nonneg (s : bytes) : 0 <= len s.
Proof. unfold len; lia. Qed.

Lemma len_app (s t : bytes) : len (s ++ t) = len s + len t.
Proof. unfold len; rewrite length_app; lia. Qed.

Lemma len_slice (s : bytes) (lo hi : Z) :
  0 <= lo -> lo <= hi -> hi <= len s -> len (slice s lo hi) = hi - lo.
Proof.
  unfold len, slice; intros Hlo Hle Hhi.
  rewrite length_firstn, length_skipn; lia.
Qed.

Lemma slice_skipn (s : bytes) (lo hi : Z) :
  0 <= lo -> lo <= hi ->
  slice s lo hi ++ skipn (Z.to_nat hi) s = skipn (Z.to_nat lo) s.
Proof.
  unfold slice; intros Hlo Hle.
  replace (Z.to_nat hi) with (Z.to_nat (hi - lo) + Z.to_nat lo)%nat by lia.
  rewrite <- skipn_skipn. apply firstn_skipn.
Qed.

Lemma slice_to_end (s : bytes) (lo : Z) :
  0 <= lo -> slice s lo (len s) = skipn (Z.to_nat lo) s.
Proof.
  unfold slice, len; intros Hlo.
  apply firstn_all2. rewrite length_skipn; lia.
Qed.

End SliceFacts.

Module BufioFacts.
Import Bufio.

Lemma byte_eqb_refl (c : byte) : Byte.eqb c c = true.
Proof. apply Byte.byte_dec_lb. reflexivity. Qed.

Lemma indexByte_first (l rest : bytes) (c : byte) :
  ~ In c l -> indexByte (l ++ c :: rest) c = Some (length l).
Proof.
  induction l as [| x l IH]; simpl; intros Hin.
  - rewrite byte_eqb_refl. reflexivity.
  - destruct (Byte.eqb x c) eqn:E.
    + apply Byte.byte_dec_bl in E. subst. tauto.
    + rewrite IH by tauto. reflexivity.
Qed.

Lemma endsWith_last (l : bytes) (c : byte) : endsWith (l ++ [c]) c = true.
Proof.
  unfold endsWith. rewrite rev_app_distr. simpl. apply byte_eqb_refl.
Qed.

(** A complete line that fits in the buffer is cut at its newline. *)
Lemma ReadSlice_line (n : nat) (l rest : bytes) :
  ~ In LF l -> (length l < n)%nat ->
  ReadSlice (mkReader n (l ++ LF :: rest)) LF
  = (l ++ [LF], None, mkReader n rest).
Proof.
  intros Hin Hlen. unfold ReadSlice; cbn [size unread].
  replace (firstn n (l ++ LF :: rest))
    with (l ++ LF :: firstn (n - S (length l)) rest).
  2:{ rewrite firstn_app.
      rewrite (firstn_all2 (n:=n) l) by lia. f_equal.
      replace (n - length l)%nat with (S (n - S (length l))) by lia.
      reflexivity. }
  rewrite indexByte_first by assumption.
  replace (l ++ LF :: rest) with ((l ++ [LF]) ++ rest)
    by (rewrite <- app_assoc; reflexivity).
  replace (S (length l)) with (length (l ++ [LF]))
    by (rewrite length_app; simpl; lia).
  rewrite firstn_app, Nat.sub_diag, firstn_all. simpl. rewrite app_nil_r.
  rewrite skipn_app, Nat.sub_diag, skipn_all. reflexivity.
Qed.

(** [ReadLine] on a complete line that fits in the buffer and does not
    end in a carriage return: the line without its newline. *)
Lemma ReadLine_line (n : nat) (l rest : bytes) :
  ~ In LF l -> (length l < n)%nat -> endsWith l CR = false ->
  ReadLine (mkReader n (l ++ LF :: rest))
  = (Some l, false, None, mkReader n rest).
Proof.
  intros Hin Hlen Hcr. unfold ReadLine.
  rewrite ReadSlice_line by assumption.
  assert (Hl : len (l ++ [LF]) = len l + 1) by (rewrite len_app; reflexivity).
  pose proof (len_nonneg l) as Hn.
  replace (len (l ++ [LF]) =? 0) with false by (symmetry; apply Z.eqb_neq; lia).
  rewrite endsWith_last, removelast_last, Hcr, andb_false_r, Hl.
  unfold slice. replace (Z.to_nat (len l + 1 - 1 - 0)) with (length l)
    by (unfold len; lia).
  simpl. rewrite firstn_app, Nat.sub_diag, firstn_all. simpl.
  rewrite app_nil_r. reflexivity.
Qed.

(** At the end of the file [ReadLine] gives a nil line and [io.EOF]. *)
Lemma ReadLine_eof (n : nat) :
  (0 < n)%nat ->
  ReadLine (mkReader n []) = (None, false, Some EOF, mkReader n []).
Proof.
  intros Hn. unfold ReadLine, ReadSlice; simpl. rewrite firstn_nil. simpl.
  destruct n; [lia | reflexivity].
Qed.

End BufioFacts.

Module TailFacts.
Import Tail.

(** The loop keeps what it was given and adds the rest of the string from
    [start] on, byte for byte. *)
Lemma partitionLoop_concat s k Hpos start end_ parts :
  0 <= start -> start <= end_ -> start <= len s ->
  concat (partitionLoop s k Hpos start end_ parts)
  = concat parts ++ skipn (Z.to_nat start) s.
Proof.
  funelim (partitionLoop s k Hpos start end_ parts); intros H0 H1 H2.
  - rewrite concat_app; simpl. rewrite app_nil_r, slice_to_end; auto.
  - subst end_. rewrite concat_app; simpl. rewrite app_nil_r, slice_to_end; auto.
  - rewrite H by lia. rewrite concat_app; simpl.
    rewrite app_nil_r, <- app_assoc, slice_skipn by lia. reflexivity.
Qed.

Lemma ceil_div_last (d k : Z) : 0 < d -> d <= k -> ceil_div d k = 1.
Proof.
  intros Hd Hk. unfold ceil_div.
  symmetry. apply Z.div_unique with (r := d - 1). lia. lia.
Qed.

Lemma ceil_div_step (d k : Z) : 0 < k -> ceil_div d k = 1 + ceil_div (d - k) k.
Proof.
  intros Hk. unfold ceil_div.
  replace (d + k - 1) with ((d - k + k - 1) + 1 * k) by lia.
  rewrite Z.div_add by lia. lia.
Qed.

(** Number of chunks the loop appends when it still has bytes to cover. *)
Lemma partitionLoop_length s k Hpos start end_ parts :
  0 <= start -> end_ = start + k -> start < len s ->
  Z.of_nat (length (partitionLoop s k Hpos start end_ parts))
  = Z.of_nat (length parts) + ceil_div (len s - start) k.
Proof.
  funelim (partitionLoop s k Hpos start end_ parts); intros H0 H1 H2.
  - rewrite length_app; simpl. rewrite ceil_div_last by lia. lia.
  - rewrite length_app; simpl. rewrite ceil_div_last by lia. lia.
  - rewrite H by lia. rewrite length_app; simpl.
    rewrite (ceil_div_step (len s - start) chunkSize) by lia.
    replace (len s - start - chunkSize) with (len s - end_) by lia. lia.
Qed.

(** Shape of the result: full chunks followed by one last chunk that is
    not empty and not longer than the chunk size. *)
Lemma partitionLoop_shape s k Hpos start end_ parts :
  0 <= start -> end_ = start + k -> start < len s ->
  Forall (fun p => len p = k) parts ->
  exists init lst,
    partitionLoop s k Hpos start end_ parts = init ++ [lst]
    /\ Forall (fun p => len p = k) init
    /\ 0 < len lst <= k.
Proof.
  funelim (partitionLoop s k Hpos start end_ parts); intros H0 H1 H2 HF.
  - exists parts, (slice s start (len s)). repeat split; auto;
      rewrite len_slice by lia; lia.
  - exists parts, (slice s start end_). repeat split; auto;
      rewrite len_slice by lia; lia.
  - apply H; try lia.
    apply Forall_app; split; auto.
    constructor; auto. rewrite len_slice by lia. lia.
Qed.

Lemma partitionString_pos s k (Hpos : 0 < k) :
  partitionString s k = Ok (partitionLoop s k Hpos 0 k []).
Proof.
  unfold partitionString. destruct (Z_lt_le_dec 0 k) as [H | H]; [| lia].
  f_equal. f_equal. apply Eqdep_dec.UIP_dec. decide equality.
Qed.

Lemma partitionString_nonpos s k :
  k <= 0 -> partitionString s k = Panic "invalid chunkSize".
Proof.
  intros Hk. unfold partitionString.
  destruct (Z_lt_le_dec 0 k); [lia | reflexivity].
Qed.

(** The emit body on one piece that [readLine] returned, longer than a
    positive [MaxLineSize] [k]: it is sent as fragments that concatenate
    to the piece, number [ceil (L / k)], all of length [k] except the
    last, which is not empty and not longer than [k]; all carry the one
    clock reading taken for the piece. *)
Theorem emitLine_split_correct (cfg : Config) (line : bytes) (now : Time) :
  0 < MaxLineSize cfg -> MaxLineSize cfg < len line ->
  exists full lst,
    emitLine cfg line now = Ok (full ++ [lst])
    /\ concat (map Text (full ++ [lst])) = line
    /\ Z.of_nat (length (full ++ [lst])) = ceil_div (len line) (MaxLineSize cfg)
    /\ Forall (fun f => len (Text f) = MaxLineSize cfg) full
    /\ 0 < len (Text lst) <= MaxLineSize cfg
    /\ Forall (fun f => Time_ f = now) (full ++ [lst]).
Proof.
  intros Hk HL. set (k := MaxLineSize cfg) in *.
  pose proof (len_nonneg line) as Hn.
  destruct (partitionLoop_shape line k Hk 0 k [] ltac:(lia) ltac:(lia)
              ltac:(lia) (Forall_nil _)) as (init & l & Heq & Hinit & Hl).
  pose proof (partitionLoop_concat line k Hk 0 k [] ltac:(lia) ltac:(lia)
                ltac:(lia)) as Hcat.
  pose proof (partitionLoop_length line k Hk 0 k [] ltac:(lia) ltac:(lia)
                ltac:(lia)) as Hlen.
  rewrite Heq in Hcat, Hlen. simpl in Hcat, Hlen.
  exists (map (fun p => mkLine p now) init), (mkLine l now).
  assert (Hmap : map (fun p => mkLine p now) init ++ [mkLine l now]
                 = map (fun p => mkLine p now) (init ++ [l])).
  { rewrite map_app. reflexivity. }
  assert (Htext : map Text (map (fun p => mkLine p now) (init ++ [l]))
                  = init ++ [l]).
  { rewrite map_map. simpl. apply map_id. }
  repeat split.
  - unfold emitLine. fold k.
    replace (0 <? k) with true by (symmetry; apply Z.ltb_lt; lia).
    replace (k <? len line) with true by (symmetry; apply Z.ltb_lt; lia).
    simpl. rewrite (partitionString_pos line k Hk), Heq, Hmap. reflexivity.
  - rewrite Hmap, Htext. exact Hcat.
  - rewrite Hmap, length_map, Hlen. f_equal. lia.
  - apply Forall_map. simpl. exact Hinit.
  - simpl. lia.
  - simpl. lia.
  - rewrite Hmap. apply Forall_map. simpl. apply Forall_forall. reflexivity.
Qed.

Lemma emitLine_split_correct_witness :
  exists full lst,
    emitLine (mkConfig (-1) true false false false 3) (b "hello") 7%nat
    = Ok (full ++ [lst])
    /\ concat (map Text (full ++ [lst])) = b "hello"
    /\ Z.of_nat (length (full ++ [lst])) = ceil_div (len (b "hello")) 3
    /\ Forall (fun f => len (Text f) = 3) full
    /\ 0 < len (Text lst) <= 3
    /\ Forall (fun f => Time_ f = 7%nat) (full ++ [lst]).
Proof.
  apply (emitLine_split_correct (mkConfig (-1) true false false false 3)
           (b "hello") 7%nat); vm_compute; reflexivity.
Defined.

(** The example of the specification: ["hello"] with [maxLineSize = 3]. *)
Example emitLine_hello :
  emitLine (mkConfig (-1) true false false false 3) (b "hello") 7%nat
  = Ok [mkLine (b "hel") 7%nat; mkLine (b "lo") 7%nat].
Proof. reflexivity. Qed.

(** C8, as stated, fails: the helper gives one empty fragment for the
    empty string, not none. *)
Lemma partitionString_empty_counterexample :
  partitionString [] 3 = Ok [[]] /\ partitionString [] 3 <> Ok [].
Proof. split; [reflexivity | discriminate]. Qed.

(** C8, amended: for every positive chunk size the helper applied to the
    empty string returns exactly one fragment, the empty one; the engine
    never splits an empty line and sends it as one [Line] of empty text. *)
Theorem partitionString_empty (cfg : Config) (k : Z) (now : Time) :
  0 < k ->
  partitionString [] k = Ok [[]]
  /\ emitLine cfg [] now = Ok [mkLine [] now].
Proof.
  intros Hk. split.
  - rewrite (partitionString_pos [] k Hk). f_equal.
    simp partitionLoop. change (len []) with 0.
    destruct (Z_gt_le_dec k 0); [reflexivity | lia].
  - unfold emitLine. change (len []) with 0.
    replace (MaxLineSize cfg <? 0) with (negb (0 <=? MaxLineSize cfg))
      by (rewrite Z.leb_antisym, negb_involutive; reflexivity).
    destruct (0 <? MaxLineSize cfg) eqn:E; [| reflexivity].
    apply Z.ltb_lt in E.
    replace (0 <=? MaxLineSize cfg) with true
      by (symmetry; apply Z.leb_le; lia).
    reflexivity.
Qed.

Lemma partitionString_empty_witness :
  partitionString [] 5 = Ok [[]]
  /\ emitLine (mkConfig 0 true false false false 5) [] 2%nat
     = Ok [mkLine [] 2%nat].
Proof.
  apply (partitionString_empty (mkConfig 0 true false false false 5) 5 2%nat).
  lia.
Defined.

(** C10: the helper panics exactly when the chunk size is not positive,
    and the engine's call of it, guarded by [MaxLineSize > 0] and
    [len(line) > MaxLineSize], never panics, whatever the configuration,
    the line and the time. *)
Theorem partitionString_panic_unreachable
    (s : bytes) (k : Z) (cfg : Config) (line : bytes) (now : Time) :
  panics (partitionString s k) = (k <=? 0)
  /\ panics (emitLine cfg line now) = false.
Proof.
  split.
  - destruct (Z_lt_le_dec 0 k) as [Hk | Hk].
    + rewrite (partitionString_pos s k Hk). simpl.
      symmetry. apply Z.leb_gt. lia.
    + rewrite (partitionString_nonpos s k Hk). simpl.
      symmetry. apply Z.leb_le. lia.
  - unfold emitLine.
    destruct (0 <? MaxLineSize cfg) eqn:E; simpl; [| reflexivity].
    apply Z.ltb_lt in E.
    destruct (MaxLineSize cfg <? len line); [| reflexivity].
    rewrite (partitionString_pos line _ E). reflexivity.
Qed.

(** C4: with [ReOpen] set and [Follow] unset, [TailFile] panics with its
    message; it returns no session and no error, and the driver task is
    not scheduled. *)
Theorem TailFile_reopen_without_follow
    (fs : FileSystem) (filename : string) (cfg : Config) :
  ReOpen cfg = true -> Follow cfg = false ->
  TailFile fs filename cfg
  = mkStarted (RetPanic "cannot set ReOpen without Follow.") false.
Proof.
  intros HR HF. unfold TailFile. rewrite HR, HF. reflexivity.
Qed.

Lemma TailFile_reopen_without_follow_witness :
  TailFile (fun _ => inl (b "x")) "log" (mkConfig 0 false true true false 0)
  = mkStarted (RetPanic "cannot set ReOpen without Follow.") false.
Proof.
  apply (TailFile_reopen_without_follow (fun _ => inl (b "x")) "log"
           (mkConfig 0 false true true false 0)); reflexivity.
Defined.

(** C5: for a path at which no file exists, and a configuration that
    passes the [ReOpen]/[Follow] check: with [MustExist] the call returns
    the error of [os.Open] and schedules no task; without it the call
    returns the session, with no error, and its driver task scheduled. *)
Theorem TailFile_must_exist
    (fs : FileSystem) (filename : string) (cfg : Config) (err : error) :
  fs filename = inr err -> IsNotExist err = true ->
  ReOpen cfg && negb (Follow cfg) = false ->
  TailFile fs filename cfg
  = if MustExist cfg
    then mkStarted (RetErr err) false
    else mkStarted
           (RetTail (mkTail filename cfg
                       (if Poll cfg then PollingFileWatcher
                        else InotifyFileWatcher) None))
           true.
Proof.
  intros Hfs _ Hv. unfold TailFile. rewrite Hv, Hfs.
  destruct (MustExist cfg); reflexivity.
Qed.

Lemma TailFile_must_exist_witness :
  TailFile (fun _ => inr ErrNotExist) "/no/such/file"
           (mkConfig 0 true false true false 0)
  = mkStarted (RetErr ErrNotExist) false
  /\ TailFile (fun _ => inr ErrNotExist) "/no/such/file"
              (mkConfig 0 true false false false 0)
     = mkStarted
         (RetTail (mkTail "/no/such/file" (mkConfig 0 true false false false 0)
                     InotifyFileWatcher None))
         true.
Proof.
  split.
  - apply (TailFile_must_exist (fun _ => inr ErrNotExist) "/no/such/file"
             (mkConfig 0 true false true false 0) ErrNotExist); reflexivity.
  - apply (TailFile_must_exist (fun _ => inr ErrNotExist) "/no/such/file"
             (mkConfig 0 true false false false 0) ErrNotExist); reflexivity.
Defined.

(** The session returned for an absent file is usable: its driver task
    waits for the file to appear. *)
Lemma tailFileSync_waits_for_file (fuel : nat) (fs : FileSystem) (t : Tail) :
  MustExist (config t) = false -> fs (Filename t) = inr ErrNotExist ->
  tailFileSync fuel fs t = Some ([], WaitingForFile).
Proof.
  intros HM Hfs. unfold tailFileSync, reopen. rewrite HM, Hfs. reflexivity.
Qed.

Lemma emitLine_whole (cfg : Config) (l : bytes) (now : Time) :
  MaxLineSize cfg <= 0 \/ len l <= MaxLineSize cfg ->
  emitLine cfg l now = Ok [mkLine l now].
Proof.
  intros H. unfold emitLine.
  destruct (0 <? MaxLineSize cfg) eqn:E1; [| reflexivity].
  destruct (MaxLineSize cfg <? len l) eqn:E2; [| reflexivity].
  apply Z.ltb_lt in E1, E2. lia.
Qed.

Lemma readLine_line (n : nat) (l rest : bytes) :
  ~ In LF l -> (length l < n)%nat -> Bufio.endsWith l CR = false ->
  readLine (Bufio.mkReader n (l ++ LF :: rest))
  = (Some l, None, Bufio.mkReader n rest).
Proof.
  intros H1 H2 H3. unfold readLine.
  rewrite BufioFacts.ReadLine_line by assumption. reflexivity.
Qed.

(** The loop on a file of complete plain lines: one iteration a line,
    and one more to meet the end of the file. *)
Lemma readLoop_lines (cfg : Config) (ls : list bytes) :
  Forall (plainLine cfg) ls ->
  forall (fuel : nat) (now : Time), (length ls < fuel)%nat ->
  exists sent,
    readLoop fuel cfg (Bufio.mkReader Bufio.defaultBufSize (fileOfLines ls)) now
    = Some (sent, atEnd cfg)
    /\ map Text sent = ls.
Proof.
  induction 1 as [| l ls Hl Hls IH]; intros fuel now Hfuel.
  - destruct fuel as [| fuel]; [simpl in Hfuel; lia |].
    exists []. split; [| reflexivity].
    cbn [readLoop]. unfold readLine, fileOfLines. cbn [map concat].
    rewrite BufioFacts.ReadLine_eof by (unfold Bufio.defaultBufSize; lia).
    cbn [isEOF]. unfold atEnd. destruct (Follow cfg); reflexivity.
  - destruct fuel as [| fuel]; [simpl in Hfuel; lia |].
    destruct Hl as (Hin & Hlen & Hcr & Hmax).
    destruct (IH fuel (S now)) as (more & Hrun & Htext);
      [simpl in Hfuel; lia |].
    exists (mkLine l now :: more). split.
    + cbn [readLoop].
      replace (fileOfLines (l :: ls)) with (l ++ LF :: fileOfLines ls)
        by (unfold fileOfLines; cbn [map concat];
            rewrite <- app_assoc; reflexivity).
      rewrite readLine_line by assumption.
      rewrite emitLine_whole by assumption.
      rewrite Hrun. reflexivity.
    + cbn [map Text]. rewrite Htext. reflexivity.
Qed.

(** C1, as stated, fails.  A line ending in a carriage return loses it;
    a line of 4096 bytes does not fit in the reader's buffer with its
    newline and comes out as two lines. *)
Lemma complete_lines_counterexample :
  (exists sent,
     tailFileSync 3 (fun _ => inl (fileOfLines [b "a" ++ [CR]]))
       (mkTail "f" (mkConfig (-1) false false false false 0)
          InotifyFileWatcher None)
     = Some (sent, Closed None)
     /\ map Text sent <> [b "a" ++ [CR]])
  /\ (exists sent,
        tailFileSync 3 (fun _ => inl (fileOfLines [repeat x61 4096]))
          (mkTail "f" (mkConfig (-1) false false false false 0)
             InotifyFileWatcher None)
        = Some (sent, Closed None)
        /\ map Text sent <> [repeat x61 4096]).
Proof.
  split.
  - exists [mkLine (b "a") 0%nat]. split; [vm_compute; reflexivity |].
    vm_compute. discriminate.
  - exists [mkLine (repeat x61 4096) 0%nat; mkLine [] 1%nat].
    split; [vm_compute; reflexivity |].
    intros H. apply (f_equal (@length bytes)) in H. discriminate H.
Qed.

(** C1, amended: for a file written as complete newline-terminated
    lines, each shorter than the reader's buffer of 4096 bytes, not
    ending in a carriage return and not longer than a positive
    [MaxLineSize], a session started with [Location = -1] sends exactly
    those lines, in file order, each verbatim and without its newline;
    it then waits for changes under [Follow] and closes otherwise. *)
Theorem complete_lines_in_order
    (fs : FileSystem) (filename : string) (cfg : Config) (ls : list bytes) :
  fs filename = inl (fileOfLines ls) ->
  ReOpen cfg && negb (Follow cfg) = false ->
  Location cfg = -1 ->
  Forall (plainLine cfg) ls ->
  exists t,
    TailFile fs filename cfg = mkStarted (RetTail t) true
    /\ forall fuel, (length ls < fuel)%nat ->
       exists sent,
         tailFileSync fuel fs t = Some (sent, atEnd cfg)
         /\ map Text sent = ls.
Proof.
  intros Hfs Hv Hloc Hls. unfold TailFile. rewrite Hv, Hfs.
  destruct (MustExist cfg) eqn:HM; eexists; (split; [reflexivity |]);
    intros fuel Hfuel; unfold tailFileSync, reopen;
    cbn [config file Filename]; rewrite HM, ?Hfs, Hloc;
    change (seekTarget (-1)) with (0, SEEK_SET);
    cbn [Seek]; unfold Seek, SEEK_SET; simpl Z.eqb; cbn iota;
    simpl Z.ltb; cbn iota; change (Z.to_nat 0) with O; cbn [skipn];
    unfold Bufio.NewReader; apply readLoop_lines; assumption.
Qed.

Lemma complete_lines_in_order_witness :
  exists t,
    TailFile (fun _ => inl (fileOfLines [b "hello"; b "world"])) "test.txt"
             (mkConfig (-1) true false false false 0)
    = mkStarted (RetTail t) true
    /\ forall fuel, (length [b "hello"; b "world"] < fuel)%nat ->
       exists sent,
         tailFileSync fuel (fun _ => inl (fileOfLines [b "hello"; b "world"])) t
         = Some (sent, atEnd (mkConfig (-1) true false false false 0))
         /\ map Text sent = [b "hello"; b "world"].
Proof.
  apply (complete_lines_in_order
           (fun _ => inl (fileOfLines [b "hello"; b "world"])) "test.txt"
           (mkConfig (-1) true false false false 0) [b "hello"; b "world"]).
  - reflexivity.
  - reflexivity.
  - reflexivity.
  - assert (Hplain : forall l, In l [b "hello"; b "world"] ->
                      plainLine (mkConfig (-1) true false false false 0) l).
    { intros l [<- | [<- | []]]; unfold plainLine;
        (split; [simpl; unfold LF; intuition discriminate |]);
        (split; [unfold Bufio.defaultBufSize; simpl; lia |]);
        (split; [reflexivity | left; simpl; lia]). }
    apply Forall_forall. exact Hplain.
Defined.

(** The positive row of the offset table: offset [N] from the start. *)
Lemma seekTarget_positive (N : Z) :
  0 < N -> seekTarget N = (N, SEEK_SET).
Proof.
  intros H. unfold seekTarget.
  replace (N >=? 0) with true by (symmetry; apply Z.geb_le; lia).
  reflexivity.
Qed.

(** The negative row: [Location = -N] gives offset [N - 1] from the
    start, over the whole range of [int]. *)
Lemma seekTarget_negative (N : Z) :
  0 < N -> min_int <= - N -> seekTarget (- N) = (N - 1, SEEK_SET).
Proof.
  intros H Hmin. unfold seekTarget, min_int in *.
  destruct (- N >=? 0) eqn:E1; [apply Z.geb_le in E1; lia |].
  replace (- N <? 0) with true by (symmetry; apply Z.ltb_lt; lia).
  f_equal. replace (-1 * - N) with N by lia.
  destruct (Z.eq_dec N (2 ^ 63)) as [-> | Hne]; [reflexivity |].
  unfold wrap64.
  rewrite (Z.mod_small (N + 2 ^ 63)) by lia.
  replace (N + 2 ^ 63 - 2 ^ 63 - 1 + 2 ^ 63) with (N - 1 + 2 ^ 63) by lia.
  rewrite Z.mod_small by lia. lia.
Qed.

(** C2 at [Location = 0]: the code seeks to offset 0 from the start of
    the file, not to its end; no [Location] reaches the branch that sets
    [SEEK_END]; and the lines present before the start are sent again. *)
Theorem seekTarget_zero_is_start :
  seekTarget 0 = (0, SEEK_SET)
  /\ (forall location, snd (seekTarget location) = SEEK_SET)
  /\ tailFileSync 3 (fun _ => inl (fileOfLines [b "hello"; b "world"]))
       (mkTail "test.txt" (mkConfig 0 true false false false 0)
          InotifyFileWatcher None)
     = Some ([mkLine (b "hello") 0%nat; mkLine (b "world") 1%nat],
             WaitingForChanges).
Proof.
  split; [reflexivity |]. split.
  - intros location. unfold seekTarget.
    destruct (location >=? 0) eqn:E1; [reflexivity |].
    destruct (location <? 0) eqn:E2; [reflexivity |].
    rewrite Z.geb_leb in E1. apply Z.leb_gt in E1. apply Z.ltb_ge in E2. lia.
  - vm_compute. reflexivity.
Qed.

End TailFacts.

Module DriverFacts.
Import Tail Driver.

Lemma Inv_init (cfg : Config) : Inv (init cfg).
Proof.
  unfold init. destruct (MustExist cfg); constructor; simpl;
    try reflexivity; try discriminate; split; discriminate.
Qed.

Ltac split_step H :=
  repeat match type of H with
         | context [match ?x with _ => _ end] => destruct x eqn:?
         end;
  try discriminate H.

Ltac inv_goal :=
  constructor; simpl;
  repeat match goal with
         | H : done ?s = false |- context [done ?s] => rewrite H
         end;
  [ split; intros; first [reflexivity | discriminate | congruence]
  | first [reflexivity | congruence | lia]
  | try (destruct (fileOpen _)); simpl; lia
  | intros; first [reflexivity | discriminate | congruence] ].

Lemma Inv_step (cfg : Config) (st st' : State) (a : Action) :
  Inv st -> step cfg st a = Some st' -> Inv st'.
Proof.
  intros [Hd Hl Hf Hh] Hstep.
  destruct a as [res | res | line err | | | res | | | err];
    try (injection Hstep as <-; constructor; simpl; assumption);
    unfold step in Hstep;
    destruct (pc st) eqn:Hpc; split_step Hstep;
    (assert (Hnd : done st = false)
       by (destruct (done st); [| reflexivity];
           destruct Hd as [Hd _]; specialize (Hd eq_refl); discriminate Hd));
    rewrite Hnd in Hl; clear Hd Hh;
    injection Hstep as <-;
    try match goal with |- Inv (deliver _ ?q' _) => destruct q' end;
    inv_goal.
Qed.

Lemma Inv_exec (cfg : Config) (trace : list Action) :
  forall st st', Inv st -> exec cfg st trace = Some st' -> Inv st'.
Proof.
  induction trace as [| a trace IH]; simpl; intros st st' HI Hx.
  - injection Hx as <-. exact HI.
  - destruct (step cfg st a) as [st1 |] eqn:Hs; [| discriminate].
    apply (IH st1); [apply (Inv_step cfg st st1 a) |]; assumption.
Qed.

(** While the driver is in a send, nothing but a receive by the consumer
    moves it: the only other action that can happen is [Kill], and it
    leaves the driver where it is. *)
Lemma send_waits_for_consumer (cfg : Config) (st st' : State) (a : Action)
    (q : list Line) :
  pc st = AtSend q -> isRecv a = false -> step cfg st a = Some st' ->
  pc st' = AtSend q /\ done st' = done st /\ received st' = received st.
Proof.
  intros Hpc Ha Hstep. unfold step in Hstep. rewrite Hpc in Hstep.
  destruct a as [res | res | line err | | | res | | | err];
    try discriminate Ha; split_step Hstep.
  injection Hstep as <-. simpl. auto.
Qed.

Lemma send_blocks_run (cfg : Config) (q : list Line) (trace : list Action) :
  forall st st',
    pc st = AtSend q -> forallb (fun a => negb (isRecv a)) trace = true ->
    exec cfg st trace = Some st' ->
    pc st' = AtSend q /\ done st' = done st /\ received st' = received st.
Proof.
  induction trace as [| a trace IH]; simpl; intros st st' Hpc Hno Hx.
  - injection Hx as <-. auto.
  - apply andb_prop in Hno. destruct Hno as [Ha Hno].
    apply negb_true_iff in Ha.
    destruct (step cfg st a) as [st1 |] eqn:Hs; [| discriminate].
    destruct (send_waits_for_consumer cfg st st1 a q Hpc Ha Hs)
      as (Hpc1 & Hd1 & Hr1).
    destruct (IH st1 st' Hpc1 Hno Hx) as (H1 & H2 & H3).
    repeat split; congruence.
Qed.

(** C9, as stated, fails.  The driver has read a line and is sending it;
    [Stop] calls [Kill]; as long as the consumer receives nothing the
    driver stays in the send, [Done] is not called and the [Wait] of
    [Stop] does not return. *)
Lemma stop_blocked_in_send_counterexample :
  exists st,
    exec (mkConfig (-1) true false false false 0)
         (init (mkConfig (-1) true false false false 0))
         [Reopen None; SeekRes None; ReadRes (Some (b "x")) None; Kill None]
    = Some st
    /\ dying st = true
    /\ forall trace st',
         forallb (fun a => negb (isRecv a)) trace = true ->
         exec (mkConfig (-1) true false false false 0) st trace = Some st' ->
         done st' = false /\ pc st' <> Exited.
Proof.
  eexists. split; [reflexivity |]. split; [reflexivity |].
  intros trace st' Hno Hx.
  pose proof (fun Hpc => send_blocks_run _ [mkLine (b "x") 0%nat] trace _ st'
                          Hpc Hno Hx) as Hrun.
  destruct (Hrun eq_refl) as (Hpc & Hd & _).
  split; [rewrite Hd; reflexivity | rewrite Hpc; discriminate].
Qed.

End DriverFacts.

Module WatchFacts.
Import Watch.

(** C6: the decision of one wake, by priority.  A not-found stat signals
    deleted and ends the monitoring; so does a file that is not the
    original one; else a size below the last known one signals truncated
    and becomes the last known size; else a modification time other than
    the last seen signals modified and becomes the last seen; else no
    signal is sent and monitoring goes on. *)
Theorem wake_decision (origFi : FileInfo) (st : PollState) :
  (forall err, IsNotExist err = true ->
     wake origFi st (StatErr err) = ([NotifyDeleted], Return))
  /\ (forall fi, 0 <= Size fi ->
       wake origFi st (StatOk fi)
       = if negb (SameFile origFi fi) then ([NotifyDeleted], Return)
         else if Size fi <? prevSize st then
           ([NotifyTruncated],
            Continue (mkPollState (Size fi) (Size fi) (prevModTime st)))
         else if negb (ModTime fi =? prevModTime st) then
           ([NotifyModified],
            Continue (mkPollState (Size fi) (Size fi) (ModTime fi)))
         else
           ([], Continue (mkPollState (Size fi) (Size fi) (prevModTime st)))).
Proof.
  split.
  - intros err He. unfold wake. rewrite He. reflexivity.
  - intros fi Hsz. unfold wake.
    destruct (negb (SameFile origFi fi)); [reflexivity |].
    destruct (Size fi <? prevSize st) eqn:E.
    + apply Z.ltb_lt in E.
      replace (prevSize st >? 0) with true by (symmetry; apply Z.gtb_lt; lia).
      replace (prevSize st >? Size fi) with true
        by (symmetry; apply Z.gtb_lt; lia).
      reflexivity.
    + apply Z.ltb_ge in E.
      replace (prevSize st >? Size fi) with false.
      2:{ symmetry. rewrite Z.gtb_ltb. apply Z.ltb_ge. lia. }
      rewrite andb_false_r. reflexivity.
Qed.

Lemma wake_decision_witness :
  wake (mkFileInfo 10 5 (1, 42)) (mkPollState 10 10 5) (StatErr ErrNotExist)
  = ([NotifyDeleted], Return)
  /\ wake (mkFileInfo 10 5 (1, 42)) (mkPollState 10 10 5)
          (StatOk (mkFileInfo 4 6 (1, 42)))
     = ([NotifyTruncated], Continue (mkPollState 4 4 5)).
Proof.
  destruct (wake_decision (mkFileInfo 10 5 (1, 42)) (mkPollState 10 10 5))
    as [Hgone Hstat].
  split.
  - apply Hgone. reflexivity.
  - apply (Hstat (mkFileInfo 4 6 (1, 42))). simpl. lia.
Defined.

(** C7 on the code: a stat error other than not-found makes the goroutine
    panic with it; nothing is signalled and no error is handed to the
    session, whose terminal error the watcher never sets. *)
Theorem wake_unexpected_error_panics
    (origFi : FileInfo) (st : PollState) (msg : string) :
  wake origFi st (StatErr (ErrOther msg)) = ([], PanicWith (ErrOther msg))
  /\ monitor origFi st [(false, StatErr (ErrOther msg))]
     = ([], Some (PanicWith (ErrOther msg))).
Proof. split; reflexivity. Qed.

End WatchFacts.

(* ===================================================================== *)
(* Further properties of tail.go                                         *)
(* ===================================================================== *)

Module BufioMore.
Import Bufio BufioFacts.

Lemma indexByte_Some (u : bytes) (c : byte) :
  forall i, indexByte u c = Some i ->
  exists pre post, u = pre ++ c :: post /\ length pre = i /\ ~ In c pre.
Proof.
  induction u as [| x u IH]; simpl; intros i H; [discriminate |].
  destruct (Byte.eqb x c) eqn:E.
  - injection H as <-. apply Byte.byte_dec_bl in E. subst x.
    exists [], u. repeat split. intros [].
  - destruct (indexByte u c) as [j |]; [| discriminate].
    injection H as <-.
    destruct (IH j eq_refl) as (pre & post & Hu & Hl & Hn).
    exists (x :: pre), post. subst u. repeat split.
    + simpl. congruence.
    + intros [Hx | Hin]; [| tauto].
      subst x. rewrite byte_eqb_refl in E. discriminate.
Qed.

Lemma indexByte_None (u : bytes) (c : byte) :
  indexByte u c = None -> ~ In c u.
Proof.
  induction u as [| x u IH]; simpl; intros H; [tauto |].
  destruct (Byte.eqb x c) eqn:E; [discriminate |].
  destruct (indexByte u c); [discriminate |].
  intros [Hx | Hin]; [| tauto].
  subst x. rewrite byte_eqb_refl in E. discriminate.
Qed.

Lemma indexByte_notin (u : bytes) (c : byte) :
  ~ In c u -> indexByte u c = None.
Proof.
  intros Hn. destruct (indexByte u c) as [i |] eqn:E; [| reflexivity].
  destruct (indexByte_Some u c i E) as (pre & post & -> & _).
  exfalso. apply Hn. apply in_or_app. right. left. reflexivity.
Qed.

Lemma endsWith_true (l : bytes) (c : byte) :
  endsWith l c = true -> exists l', l = l' ++ [c].
Proof.
  unfold endsWith. intros H.
  destruct (rev l) as [| x t] eqn:E; [discriminate |].
  apply Byte.byte_dec_bl in H. subst x.
  exists (rev t). rewrite <- (rev_involutive l), E. reflexivity.
Qed.

Lemma endsWith_notin (l : bytes) (c : byte) : ~ In c l -> endsWith l c = false.
Proof.
  intros Hn. destruct (endsWith l c) eqn:E; [| reflexivity].
  destruct (endsWith_true l c E) as (l' & ->).
  exfalso. apply Hn. apply in_or_app. right. left. reflexivity.
Qed.

(** What [ReadSlice] returns for the newline delimiter. *)
Lemma ReadSlice_spec (r r' : Reader) (line : bytes) (err : option error) :
  ReadSlice r LF = (line, err, r') ->
  size r' = size r
  /\ unread r = line ++ unread r'
  /\ match err with
     | None => exists pre, line = pre ++ [LF] /\ ~ In LF pre
                           /\ (length pre < size r)%nat
     | Some e => ~ In LF line
                 /\ ((e = ErrBufferFull /\ length line = size r)
                     \/ (e = EOF /\ unread r' = []
                         /\ (length line < size r)%nat))
     end.
Proof.
  unfold ReadSlice. destruct r as [n u]. cbn [size unread].
  destruct (indexByte (firstn n u) LF) as [i |] eqn:E.
  - remember (S i) as k eqn:Hk.
    intros H. injection H as <- <- <-. cbn [size unread].
    destruct (indexByte_Some _ _ _ E) as (pre & post & Hf & Hl & Hn).
    assert (Hu : u = pre ++ LF :: (post ++ skipn n u)).
    { rewrite <- (firstn_skipn n u) at 1. rewrite Hf, <- app_assoc.
      reflexivity. }
    assert (Hlen : (length pre < n)%nat).
    { pose proof (firstn_le_length n u) as Hle. rewrite Hf in Hle.
      rewrite length_app in Hle. simpl in Hle. lia. }
    split; [reflexivity |]. split; [symmetry; apply firstn_skipn |].
    exists pre. split; [| split; [exact Hn | exact Hlen]].
    rewrite Hu. subst i k.
    replace (pre ++ LF :: post ++ skipn n u)
      with ((pre ++ [LF]) ++ post ++ skipn n u)
      by (rewrite <- app_assoc; reflexivity).
    replace (S (length pre)) with (length (pre ++ [LF]))
      by (rewrite length_app; simpl; lia).
    rewrite firstn_app, Nat.sub_diag, firstn_all. simpl.
    apply app_nil_r.
  - pose proof (indexByte_None _ _ E) as Hn.
    destruct (n <=? length u)%nat eqn:Hcmp.
    + apply Nat.leb_le in Hcmp.
      intros H. injection H as <- <- <-. cbn [size unread].
      split; [reflexivity |]. split; [symmetry; apply firstn_skipn |].
      split; [exact Hn |]. left. split; [reflexivity |].
      apply firstn_length_le. exact Hcmp.
    + apply Nat.leb_gt in Hcmp.
      intros H. injection H as <- <- <-. cbn [size unread].
      split; [reflexivity |]. split; [symmetry; apply app_nil_r |].
      rewrite firstn_all2 in Hn by lia.
      split; [exact Hn |]. right. repeat split. exact Hcmp.
Qed.

Lemma removelast_notin (l : bytes) (c : byte) :
  ~ In c l -> ~ In c (removelast l).
Proof.
  intros Hn Hin. apply Hn.
  destruct l as [| x l] using rev_ind; [exact Hin |].
  rewrite removelast_last in Hin. apply in_or_app. left. exact Hin.
Qed.

(** What [ReadLine] returns, for a buffer of at least two bytes: either
    a line without newline, taken from the front of the unread bytes
    together with the line end it stood before (none, a newline, or a
    carriage return and a newline), the reader advancing by at least one
    byte; or a nil line and [io.EOF], when nothing is left to read. *)
Lemma ReadLine_spec (r r' : Reader) (line : option bytes) (pfx : bool)
    (err : option error) :
  (2 <= size r)%nat ->
  ReadLine r = (line, pfx, err, r') ->
  size r' = size r
  /\ match err with
     | None =>
         exists l term,
           line = Some l
           /\ ~ In LF l
           /\ unread r = l ++ term ++ unread r'
           /\ (term = [] \/ term = [LF] \/ term = [CR; LF])
           /\ (length (unread r') < length (unread r))%nat
           /\ (length l <= size r)%nat
     | Some e => e = EOF /\ line = None /\ unread r = []
     end.
Proof.
  intros Hsz. unfold ReadLine.
  destruct (ReadSlice r LF) as [[line0 err0] r0] eqn:Hrs.
  destruct (ReadSlice_spec r r0 line0 err0 Hrs) as (Hs0 & Hu & Hcase).
  destruct err0 as [e0 |].
  - destruct Hcase as (Hn & [[-> Hfull] | (-> & Hrest & Hshort)]).
    + (* the buffer filled before a newline came *)
      destruct (endsWith line0 CR) eqn:Hcr; intros H;
        injection H as <- <- <- <-; cbn [size unread].
      * destruct (endsWith_true _ _ Hcr) as (l' & ->).
        rewrite removelast_last. split; [exact Hs0 |].
        exists l', []. rewrite length_app in Hfull. simpl in Hfull.
        repeat split.
        -- intros Hin. apply Hn. apply in_or_app. left. exact Hin.
        -- rewrite Hu, <- app_assoc. reflexivity.
        -- left. reflexivity.
        -- rewrite Hu, !length_app. simpl. lia.
        -- lia.
      * split; [exact Hs0 |]. exists line0, [].
        repeat split; auto.
        -- rewrite Hu, length_app. lia.
        -- lia.
    + (* the file ended before a newline came *)
      destruct (len line0 =? 0) eqn:Hz.
      * intros H. injection H as <- <- <- <-. split; [exact Hs0 |].
        apply Z.eqb_eq in Hz. unfold len in Hz.
        destruct line0; [| simpl in Hz; lia].
        rewrite Hu, Hrest. repeat split.
      * apply Z.eqb_neq in Hz. rewrite (endsWith_notin _ _ Hn).
        intros H. injection H as <- <- <- <-. split; [exact Hs0 |].
        exists line0, []. rewrite Hrest in *. repeat split; auto.
        -- rewrite Hu, app_nil_r. unfold len in Hz.
           destruct line0; simpl in *; lia.
        -- lia.
  - (* a newline was found *)
    destruct Hcase as (pre & -> & Hn & Hlen).
    assert (Hl : len (pre ++ [LF]) = len pre + 1)
      by (rewrite len_app; reflexivity).
    pose proof (len_nonneg pre) as Hnn.
    replace (len (pre ++ [LF]) =? 0) with false
      by (symmetry; apply Z.eqb_neq; lia).
    rewrite endsWith_last, removelast_last, Hl.
    destruct (endsWith pre CR) eqn:Hcr.
    + destruct (endsWith_true _ _ Hcr) as (l' & ->).
      replace (1 <? len (l' ++ [CR]) + 1) with true
        by (symmetry; apply Z.ltb_lt; rewrite len_app;
            pose proof (len_nonneg l'); change (len [CR]) with 1; lia).
      cbn [andb]. intros H. injection H as <- <- <- <-.
      split; [exact Hs0 |]. exists l', [CR; LF].
      rewrite length_app in Hlen. simpl in Hlen.
      repeat split.
      * unfold slice.
        replace (Z.to_nat (len (l' ++ [CR]) + 1 - 2 - 0)) with (length l')
          by (rewrite len_app; unfold len; simpl; lia).
        simpl. rewrite <- !app_assoc, firstn_app, Nat.sub_diag, firstn_all.
        simpl. rewrite app_nil_r. reflexivity.
      * intros Hin. apply Hn. apply in_or_app. left. exact Hin.
      * rewrite Hu, <- !app_assoc. reflexivity.
      * right. right. reflexivity.
      * rewrite Hu, !length_app. simpl. lia.
      * lia.
    + rewrite andb_false_r. intros H. injection H as <- <- <- <-.
      split; [exact Hs0 |]. exists pre, [LF].
      repeat split.
      * unfold slice.
        replace (Z.to_nat (len pre + 1 - 1 - 0)) with (length pre)
          by (unfold len; lia).
        simpl. rewrite firstn_app, Nat.sub_diag, firstn_all. simpl.
        rewrite app_nil_r. reflexivity.
      * exact Hn.
      * rewrite Hu, <- app_assoc. reflexivity.
      * right. left. reflexivity.
      * rewrite Hu, !length_app. simpl. lia.
      * lia.
Qed.

End BufioMore.

Module TailMore.
Import Tail TailFacts.

Lemma ceil_div_capacity (L k : Z) : 0 < k -> ceil_div L k <= 1 + L / k.
Proof.
  intros Hk. unfold ceil_div.
  replace (1 + L / k) with ((L + 1 * k) / k) by (rewrite Z.div_add; lia).
  apply Z.div_le_mono; lia.
Qed.

Lemma ceil_div_pos (L k : Z) : 0 < k -> 0 < L -> 1 <= ceil_div L k.
Proof.
  intros Hk HL. unfold ceil_div.
  apply Z.div_le_lower_bound; lia.
Qed.

(** The chunks of a string for a positive chunk size, in one statement. *)
Lemma partitionString_spec (s : bytes) (k : Z) :
  0 < k ->
  exists parts,
    partitionString s k = Ok parts
    /\ concat parts = s
    /\ parts <> []
    /\ Forall (fun p => len p <= k) parts
    /\ Forall (fun p => s = [] \/ 0 < len p) parts
    /\ Z.of_nat (length parts) = Z.max 1 (ceil_div (len s) k).
Proof.
  intros Hk. rewrite (partitionString_pos s k Hk).
  pose proof (partitionLoop_concat s k Hk 0 k [] ltac:(lia) ltac:(lia)
                (len_nonneg s)) as Hcat.
  simpl in Hcat.
  destruct s as [| x s'].
  - exists [[]]. simp partitionLoop. change (len []) with 0.
    destruct (Z_gt_le_dec k 0); [| lia]. cbn.
    repeat split; try reflexivity; try discriminate.
    + constructor; [change (len []) with 0; lia | constructor].
    + constructor; [left; reflexivity | constructor].
    + unfold ceil_div. rewrite Z.div_small by lia. reflexivity.
  - set (s := x :: s') in *.
    assert (HL : 0 < len s) by (unfold len, s; simpl; lia).
    destruct (partitionLoop_shape s k Hk 0 k [] ltac:(lia) ltac:(lia) HL
                (Forall_nil _)) as (init & l & Heq & Hinit & Hl).
    pose proof (partitionLoop_length s k Hk 0 k [] ltac:(lia) ltac:(lia) HL)
      as Hlen.
    eexists. split; [reflexivity |]. rewrite Heq in *.
    split; [exact Hcat |].
    split; [destruct init; discriminate |].
    split; [| split].
    + apply Forall_app; split.
      * eapply Forall_impl; [| exact Hinit]. simpl; intros; lia.
      * constructor; [lia | constructor].
    + apply Forall_app; split.
      * eapply Forall_impl; [| exact Hinit]. simpl; intros; right; lia.
      * constructor; [right; lia | constructor].
    + rewrite Hlen. simpl length. rewrite Z.sub_0_r.
      pose proof (ceil_div_pos (len s) k Hk HL). lia.
Qed.

(** X1: for every string and every positive chunk size, the chunks that
    [partitionString] returns concatenate to the string: nothing is lost,
    repeated or reordered, whatever the length, the empty string and
    strings shorter than a chunk included. *)
Theorem partitionString_concat (s : bytes) (k : Z) :
  0 < k ->
  exists parts, partitionString s k = Ok parts /\ concat parts = s.
Proof.
  intros Hk. destruct (partitionString_spec s k Hk) as (parts & H1 & H2 & _).
  exists parts. split; assumption.
Qed.

Lemma partitionString_concat_witness :
  exists parts, partitionString (b "ab") 5 = Ok parts /\ concat parts = b "ab".
Proof. apply (partitionString_concat (b "ab") 5). lia. Defined.

(** X2: for a positive chunk size, [partitionString] returns at least
    one chunk, none longer than the chunk size and none empty unless the
    string is; their number is [max 1 (ceil (L / k))], which stays within
    the capacity [1 + L / k] the function allocates. *)
Theorem partitionString_chunks (s : bytes) (k : Z) :
  0 < k ->
  exists parts,
    partitionString s k = Ok parts
    /\ parts <> []
    /\ Forall (fun p => len p <= k) parts
    /\ Forall (fun p => s = [] \/ 0 < len p) parts
    /\ Z.of_nat (length parts) = Z.max 1 (ceil_div (len s) k)
    /\ Z.of_nat (length parts) <= 1 + len s / k.
Proof.
  intros Hk.
  destruct (partitionString_spec s k Hk) as (parts & H1 & _ & H3 & H4 & H5 & H6).
  exists parts. repeat split; try assumption.
  rewrite H6. pose proof (ceil_div_capacity (len s) k Hk).
  pose proof (len_nonneg s).
  assert (0 <= len s / k) by (apply Z.div_pos; lia). lia.
Qed.

Lemma partitionString_chunks_witness :
  exists parts,
    partitionString (b "abcdef") 3 = Ok parts
    /\ parts <> []
    /\ Forall (fun p => len p <= 3) parts
    /\ Forall (fun p => b "abcdef" = [] \/ 0 < len p) parts
    /\ Z.of_nat (length parts) = Z.max 1 (ceil_div (len (b "abcdef")) 3)
    /\ Z.of_nat (length parts) <= 1 + len (b "abcdef") / 3.
Proof. apply (partitionString_chunks (b "abcdef") 3). lia. Defined.

(** What [emitLine] sends for any line. *)
Lemma emitLine_spec (cfg : Config) (line : bytes) (now : Time) :
  exists frags,
    emitLine cfg line now = Ok frags
    /\ concat (map Text frags) = line
    /\ frags <> []
    /\ Forall (fun f => Time_ f = now) frags
    /\ Forall (fun f => MaxLineSize cfg <= 0 \/ len (Text f) <= MaxLineSize cfg)
         frags.
Proof.
  unfold emitLine.
  destruct (0 <? MaxLineSize cfg) eqn:E1; simpl.
  - apply Z.ltb_lt in E1.
    destruct (MaxLineSize cfg <? len line) eqn:E2.
    + destruct (partitionString_spec line _ E1)
        as (parts & H1 & H2 & H3 & H4 & _).
      rewrite H1. eexists. split; [reflexivity |].
      rewrite map_map. simpl. rewrite map_id.
      split; [exact H2 |].
      split; [destruct parts; [congruence | discriminate] |].
      split; apply Forall_map; simpl.
      * apply Forall_forall. reflexivity.
      * eapply Forall_impl; [| exact H4]. simpl; intros; right; assumption.
    + apply Z.ltb_ge in E2. eexists. split; [reflexivity |]. simpl.
      rewrite app_nil_r. repeat split; try discriminate;
        constructor; simpl; auto.
  - apply Z.ltb_ge in E1. eexists. split; [reflexivity |]. simpl.
    rewrite app_nil_r. repeat split; try discriminate;
      constructor; simpl; auto.
Qed.

(** X3: whatever the configuration and the line, what the engine sends
    for the line is at least one [Line]; the texts concatenate to the
    line; all carry the clock reading taken for the line; and under a
    positive [MaxLineSize] no text is longer than it. *)
Theorem emitLine_preserves (cfg : Config) (line : bytes) (now : Time) :
  exists frags,
    emitLine cfg line now = Ok frags
    /\ concat (map Text frags) = line
    /\ frags <> []
    /\ Forall (fun f => Time_ f = now) frags
    /\ Forall (fun f => MaxLineSize cfg <= 0 \/ len (Text f) <= MaxLineSize cfg)
         frags.
Proof. apply emitLine_spec. Qed.

(** The seek of the first open, for a [Location] in the range of [int]. *)
Lemma seek_spec (f : bytes) (location : Z) :
  min_int <= location <= max_int ->
  seekTarget location
  = (if 0 <=? location then location else - location - 1, SEEK_SET)
  /\ 0 <= fst (seekTarget location) <= max_int
  /\ Seek f (fst (seekTarget location)) (snd (seekTarget location))
     = inl (fst (seekTarget location)).
Proof.
  intros [Hlo Hhi]. unfold min_int, max_int in *.
  assert (Heq : seekTarget location
                = (if 0 <=? location then location else - location - 1,
                   SEEK_SET)).
  { destruct (0 <=? location) eqn:E.
    - apply Z.leb_le in E. unfold seekTarget.
      replace (location >=? 0) with true by (symmetry; apply Z.geb_le; lia).
      reflexivity.
    - apply Z.leb_gt in E.
      replace location with (- (- location)) at 1 by lia.
      rewrite seekTarget_negative by (unfold min_int; lia). reflexivity. }
  rewrite Heq. cbn [fst snd].
  assert (Hrange : 0 <= (if 0 <=? location then location else - location - 1)
                   <= 2 ^ 63 - 1).
  { destruct (0 <=? location) eqn:E;
      [apply Z.leb_le in E | apply Z.leb_gt in E]; lia. }
  split; [reflexivity |]. split; [exact Hrange |].
  unfold Seek, SEEK_SET. simpl Z.eqb. cbn iota.
  replace (_ <? 0) with false by (symmetry; apply Z.ltb_ge; lia).
  reflexivity.
Qed.

(** X4: for every [Location] in the range of [int], the seek of the first
    open is from the start of the file, to [Location] when it is not
    negative and to [- Location - 1] when it is, the least [int] included,
    where the negation wraps; the offset is never negative, and when it
    lies within the file the [Seek] succeeds and gives that position. *)
Theorem seek_from_start (f : bytes) (location : Z) :
  min_int <= location <= max_int ->
  seekTarget location
  = (if 0 <=? location then location else - location - 1, SEEK_SET)
  /\ 0 <= fst (seekTarget location) <= max_int
  /\ (fst (seekTarget location) <= len f ->
      Seek f (fst (seekTarget location)) (snd (seekTarget location))
      = inl (fst (seekTarget location))).
Proof.
  intros Hloc. destruct (seek_spec f location Hloc) as (H1 & H2 & H3).
  split; [exact H1 |]. split; [exact H2 |]. intros _. exact H3.
Qed.

Lemma seek_from_start_witness :
  seekTarget (-3) = (2, SEEK_SET)
  /\ seekTarget min_int = (max_int, SEEK_SET)
  /\ Seek (b "hello") (fst (seekTarget (-3))) (snd (seekTarget (-3)))
     = inl (fst (seekTarget (-3))).
Proof.
  destruct (seek_from_start (b "hello") (-3)) as (H1 & _ & H3);
    [vm_compute; split; discriminate |].
  destruct (seek_from_start (b "hello") min_int) as (H4 & _ & _);
    [vm_compute; split; discriminate |].
  split; [exact H1 |]. split; [exact H4 |].
  apply H3. vm_compute. discriminate.
Defined.

Lemma readLine_spec (r r' : Bufio.Reader) (line : option bytes)
    (err : option error) :
  (2 <= Bufio.size r)%nat ->
  readLine r = (line, err, r') ->
  Bufio.size r' = Bufio.size r
  /\ match err with
     | None =>
         exists l term,
           line = Some l
           /\ ~ In LF l
           /\ Bufio.unread r = l ++ term ++ Bufio.unread r'
           /\ (term = [] \/ term = [LF] \/ term = [CR; LF])
           /\ (length (Bufio.unread r') < length (Bufio.unread r))%nat
           /\ (length l <= Bufio.size r)%nat
     | Some e => e = EOF /\ line = None /\ Bufio.unread r = []
     end.
Proof.
  intros Hsz. unfold readLine.
  destruct (Bufio.ReadLine r) as [[[line1 pfx] err1] r1] eqn:H.
  intros Heq. injection Heq as <- <- <-.
  exact (BufioMore.ReadLine_spec r r1 line1 pfx err1 Hsz H).
Qed.

Lemma in_concat_split (f : Line) (frags : list Line) :
  In f frags ->
  exists pre post, concat (map Text frags) = pre ++ Text f ++ post.
Proof.
  intros Hin. destruct (in_split _ _ Hin) as (l1 & l2 & ->).
  exists (concat (map Text l1)), (concat (map Text l2)).
  rewrite map_app, concat_app. reflexivity.
Qed.

Lemma stripNewlines_app (u v : bytes) :
  stripNewlines (u ++ v) = stripNewlines u ++ stripNewlines v.
Proof. apply filter_app. Qed.

Lemma stripNewlines_line (l : bytes) : ~ In LF l -> stripNewlines l = l.
Proof.
  induction l as [| x l IH]; intros Hn; [reflexivity |].
  unfold stripNewlines in *. simpl.
  destruct (Byte.eqb x LF) eqn:E.
  - apply Byte.byte_dec_bl in E. subst x. exfalso. apply Hn. left. reflexivity.
  - simpl. rewrite IH; [reflexivity |]. intros Hin. apply Hn. right. exact Hin.
Qed.

(** The loop on any file that does not change: it meets the end of the
    file within one iteration a byte; the texts it sends hold no newline
    and fit in the reader's buffer; and when the file holds no carriage
    return, they concatenate to what was unread, newlines taken out. *)
Lemma readLoop_spec (cfg : Config) :
  forall (n : nat) (r : Bufio.Reader) (now : Time),
    (2 <= Bufio.size r)%nat -> (length (Bufio.unread r) <= n)%nat ->
    exists sent,
      (forall fuel, (n < fuel)%nat ->
         readLoop fuel cfg r now = Some (sent, atEnd cfg))
      /\ Forall (fun f => ~ In LF (Text f)
                          /\ (length (Text f) <= Bufio.size r)%nat) sent
      /\ (~ In CR (Bufio.unread r) ->
          concat (map Text sent) = stripNewlines (Bufio.unread r)).
Proof.
  induction n as [| n IH]; intros r now Hsz Hlen;
    destruct (readLine r) as [[line err] r'] eqn:Hrl;
    destruct (readLine_spec r r' line err Hsz Hrl) as (Hs' & Hcase);
    destruct err as [e |].
  1, 3: destruct Hcase as (-> & -> & Hu); exists []; split;
    [ intros fuel Hf; destruct fuel as [| fuel]; [lia |];
      cbn [readLoop]; rewrite Hrl; cbn [isEOF]; unfold atEnd;
      destruct (Follow cfg); reflexivity
    | split; [constructor | intros _; rewrite Hu; reflexivity] ].
  - destruct Hcase as (l & term & _ & _ & _ & _ & Hprog & _). lia.
  - destruct Hcase as (l & term & -> & Hnl & Hu & Hterm & Hprog & Hll).
    destruct (emitLine_spec cfg l now) as (frags & Hem & Hcat & _ & _ & _).
    destruct (IH r' (S now)) as (more & Hrun & Hall & Hstrip);
      [lia | lia |].
    exists (frags ++ more). split; [| split].
    + intros fuel Hf. destruct fuel as [| fuel]; [lia |].
      cbn [readLoop]. rewrite Hrl, Hem, (Hrun fuel) by lia. reflexivity.
    + apply Forall_app. split.
      * apply Forall_forall. intros f Hin.
        destruct (in_concat_split f frags Hin) as (pre & post & Hsp).
        rewrite Hcat in Hsp. split.
        -- intros Hx. apply Hnl. rewrite Hsp.
           apply in_or_app. right. apply in_or_app. left. exact Hx.
        -- apply (f_equal (@length byte)) in Hsp.
           rewrite !length_app in Hsp. lia.
      * rewrite <- Hs'. exact Hall.
    + intros Hcr. rewrite map_app, concat_app, Hcat.
      assert (Hcr' : ~ In CR (Bufio.unread r')).
      { intros Hx. apply Hcr. rewrite Hu.
        apply in_or_app. right. apply in_or_app. right. exact Hx. }
      rewrite (Hstrip Hcr'), Hu, !stripNewlines_app.
      rewrite (stripNewlines_line l Hnl). f_equal.
      destruct Hterm as [-> | [-> | ->]]; try reflexivity.
      exfalso. apply Hcr. rewrite Hu.
      apply in_or_app. right. left. reflexivity.
Qed.

(** The run of a session on a file that exists, for a [Location] in the
    range of [int]: the driver reads from the seek position on. *)
Lemma tailFileSync_on_file
    (fs : FileSystem) (filename : string) (cfg : Config) (f : bytes) :
  fs filename = inl f ->
  ReOpen cfg && negb (Follow cfg) = false ->
  min_int <= Location cfg <= max_int ->
  exists t,
    TailFile fs filename cfg = mkStarted (RetTail t) true
    /\ forall fuel,
         tailFileSync fuel fs t
         = readLoop fuel cfg
             (Bufio.NewReader
                (skipn (Z.to_nat (fst (seekTarget (Location cfg)))) f)) O.
Proof.
  intros Hfs Hv Hloc.
  destruct (seek_spec f (Location cfg) Hloc) as (_ & _ & Hseek).
  unfold TailFile. rewrite Hv, Hfs.
  destruct (MustExist cfg) eqn:HM; eexists; (split; [reflexivity |]);
    intros fuel; unfold tailFileSync, reopen;
    cbn [config file Filename]; rewrite HM, ?Hfs;
    destruct (seekTarget (Location cfg)) as [offset whence];
    cbn [fst snd] in *; rewrite Hseek; reflexivity.
Qed.


Lemma NewReader_size (f : bytes) : (2 <= Bufio.size (Bufio.NewReader f))%nat.
Proof. unfold Bufio.NewReader, Bufio.defaultBufSize. simpl. lia. Qed.

Lemma in_skipn (x : byte) (n : nat) (f : bytes) : In x (skipn n f) -> In x f.
Proof.
  intros H. rewrite <- (firstn_skipn n f). apply in_or_app. right. exact H.
Qed.

(** All of the run on an existing, unchanging file, in one statement. *)
Lemma tailFileSync_spec
    (fs : FileSystem) (filename : string) (cfg : Config) (f : bytes) :
  fs filename = inl f ->
  ReOpen cfg && negb (Follow cfg) = false ->
  min_int <= Location cfg <= max_int ->
  exists t sent,
    TailFile fs filename cfg = mkStarted (RetTail t) true
    /\ (forall fuel, (length f < fuel)%nat ->
          tailFileSync fuel fs t = Some (sent, atEnd cfg))
    /\ Forall (fun l => ~ In LF (Text l)
                        /\ (length (Text l) <= Bufio.defaultBufSize)%nat) sent
    /\ (~ In CR f ->
        concat (map Text sent)
        = stripNewlines
            (skipn (Z.to_nat (if 0 <=? Location cfg then Location cfg
                              else - Location cfg - 1)) f)).
Proof.
  intros Hfs Hv Hloc.
  destruct (tailFileSync_on_file fs filename cfg f Hfs Hv Hloc)
    as (t & Hstart & Hrun).
  destruct (seek_spec f (Location cfg) Hloc) as (Hst & _ & _).
  rewrite Hst in Hrun. cbn [fst] in Hrun.
  set (pos := Z.to_nat (if 0 <=? Location cfg then Location cfg
                        else - Location cfg - 1)) in *.
  destruct (readLoop_spec cfg (length f) (Bufio.NewReader (skipn pos f)) O
              (NewReader_size _))
    as (sent & Hfuel & Hall & Hstrip).
  { simpl. rewrite length_skipn. lia. }
  exists t, sent. split; [exact Hstart |]. split; [| split].
  - intros fuel Hf. rewrite Hrun. apply Hfuel. exact Hf.
  - exact Hall.
  - intros Hcr. apply Hstrip. simpl. intros Hx. apply Hcr.
    apply (in_skipn _ _ _ Hx).
Qed.

(** X5: on a file that exists and does not change, for any valid
    configuration and any [Location] in the range of [int] whose seek
    target lies within the file, the driver reaches the end of the file
    within one loop iteration a byte, without a read error or a panic:
    with [Follow] unset it closes the stream with no error, with [Follow]
    set it waits for changes. *)
Theorem tailFileSync_reaches_end
    (fs : FileSystem) (filename : string) (cfg : Config) (f : bytes) :
  fs filename = inl f ->
  ReOpen cfg && negb (Follow cfg) = false ->
  min_int <= Location cfg <= max_int ->
  - len f - 1 <= Location cfg <= len f ->
  exists t sent,
    TailFile fs filename cfg = mkStarted (RetTail t) true
    /\ forall fuel, (length f < fuel)%nat ->
         tailFileSync fuel fs t = Some (sent, atEnd cfg).
Proof.
  intros Hfs Hv Hloc _.
  destruct (tailFileSync_spec fs filename cfg f Hfs Hv Hloc)
    as (t & sent & H1 & H2 & _).
  exists t, sent. split; assumption.
Qed.

Lemma tailFileSync_reaches_end_witness :
  exists t sent,
    TailFile (fun _ => inl (b "ab")) "f" (mkConfig 1 false false true false 0)
    = mkStarted (RetTail t) true
    /\ forall fuel, (length (b "ab") < fuel)%nat ->
         tailFileSync fuel (fun _ => inl (b "ab")) t
         = Some (sent, atEnd (mkConfig 1 false false true false 0)).
Proof.
  apply (tailFileSync_reaches_end (fun _ => inl (b "ab")) "f"
           (mkConfig 1 false false true false 0) (b "ab"));
    [reflexivity | reflexivity | vm_compute; split; discriminate
    | vm_compute; split; discriminate].
Defined.

(** X6: whatever the content of the file, for a [Location] whose seek
    target lies within the file, no [Line] the driver sends holds a
    newline byte, and none is longer than the 4096 bytes of the reader's
    buffer. *)
Theorem sent_lines_have_no_newline
    (fs : FileSystem) (filename : string) (cfg : Config) (f : bytes) :
  fs filename = inl f ->
  ReOpen cfg && negb (Follow cfg) = false ->
  min_int <= Location cfg <= max_int ->
  - len f - 1 <= Location cfg <= len f ->
  exists t sent,
    TailFile fs filename cfg = mkStarted (RetTail t) true
    /\ (forall fuel, (length f < fuel)%nat ->
          tailFileSync fuel fs t = Some (sent, atEnd cfg))
    /\ Forall (fun l => ~ In LF (Text l)
                        /\ (length (Text l) <= 4096)%nat) sent.
Proof.
  intros Hfs Hv Hloc _.
  destruct (tailFileSync_spec fs filename cfg f Hfs Hv Hloc)
    as (t & sent & H1 & H2 & H3 & _).
  exists t, sent. repeat split; assumption.
Qed.

Lemma sent_lines_have_no_newline_witness :
  exists t sent,
    TailFile (fun _ => inl (fileOfLines [b "a"; b "bc"])) "f"
             (mkConfig (-1) false false false false 0)
    = mkStarted (RetTail t) true
    /\ (forall fuel, (length (fileOfLines [b "a"; b "bc"]) < fuel)%nat ->
          tailFileSync fuel (fun _ => inl (fileOfLines [b "a"; b "bc"])) t
          = Some (sent, atEnd (mkConfig (-1) false false false false 0)))
    /\ Forall (fun l => ~ In LF (Text l)
                        /\ (length (Text l) <= 4096)%nat) sent.
Proof.
  apply (sent_lines_have_no_newline
           (fun _ => inl (fileOfLines [b "a"; b "bc"])) "f"
           (mkConfig (-1) false false false false 0)
           (fileOfLines [b "a"; b "bc"]));
    [reflexivity | reflexivity | vm_compute; split; discriminate
    | vm_compute; split; discriminate].
Defined.

(** X7: for a file that holds no carriage return, whatever the lengths
    of its lines, whether its last line is terminated, and whatever
    [MaxLineSize], with a [Location] whose seek target lies within the
    file, the texts of the lines sent concatenate to the content from the
    seek position on with the newlines taken out: no other byte is lost,
    repeated or moved. *)
Theorem sent_bytes_preserved
    (fs : FileSystem) (filename : string) (cfg : Config) (f : bytes) :
  fs filename = inl f ->
  ReOpen cfg && negb (Follow cfg) = false ->
  min_int <= Location cfg <= max_int ->
  - len f - 1 <= Location cfg <= len f ->
  ~ In CR f ->
  exists t sent,
    TailFile fs filename cfg = mkStarted (RetTail t) true
    /\ (forall fuel, (length f < fuel)%nat ->
          tailFileSync fuel fs t = Some (sent, atEnd cfg))
    /\ concat (map Text sent)
       = stripNewlines
           (skipn (Z.to_nat (if 0 <=? Location cfg then Location cfg
                             else - Location cfg - 1)) f).
Proof.
  intros Hfs Hv Hloc _ Hcr.
  destruct (tailFileSync_spec fs filename cfg f Hfs Hv Hloc)
    as (t & sent & H1 & H2 & _ & H4).
  exists t, sent. repeat split; auto.
Qed.

Lemma sent_bytes_preserved_witness :
  exists t sent,
    TailFile (fun _ => inl (fileOfLines [b "hello"; b "world"] ++ b "he")) "f"
             (mkConfig (-1) true false false false 3)
    = mkStarted (RetTail t) true
    /\ (forall fuel,
          (length (fileOfLines [b "hello"; b "world"] ++ b "he") < fuel)%nat ->
          tailFileSync fuel
            (fun _ => inl (fileOfLines [b "hello"; b "world"] ++ b "he")) t
          = Some (sent, atEnd (mkConfig (-1) true false false false 3)))
    /\ concat (map Text sent)
       = stripNewlines
           (skipn (Z.to_nat (if 0 <=? -1 then -1 else - -1 - 1))
              (fileOfLines [b "hello"; b "world"] ++ b "he")).
Proof.
  apply (sent_bytes_preserved
           (fun _ => inl (fileOfLines [b "hello"; b "world"] ++ b "he")) "f"
           (mkConfig (-1) true false false false 3)
           (fileOfLines [b "hello"; b "world"] ++ b "he"));
    [reflexivity | reflexivity | vm_compute; split; discriminate
    | vm_compute; split; discriminate |].
  vm_compute. intuition discriminate.
Defined.


Lemma stamp_app (ls ms : list bytes) :
  forall now, stamp now (ls ++ ms) = stamp now ls ++ stamp (length ls + now)%nat ms.
Proof.
  induction ls as [| l ls IH]; intros now; [reflexivity |].
  simpl. rewrite IH, Nat.add_succ_r. reflexivity.
Qed.

Lemma map_Text_stamp (ls : list bytes) :
  forall now, map Text (stamp now ls) = ls.
Proof.
  induction ls as [| l ls IH]; intros now; [reflexivity |].
  simpl. rewrite IH. reflexivity.
Qed.

(** The loop over lines that [readLine] returns whole, each written to
    the file as [enc] has it, followed by anything. *)
Lemma readLoop_steps (cfg : Config) (N : nat) (enc : bytes -> bytes)
    (ls : list bytes) :
  Forall (fun l =>
            (forall rest, readLine (Bufio.mkReader N (enc l ++ rest))
                          = (Some l, None, Bufio.mkReader N rest))
            /\ (MaxLineSize cfg <= 0 \/ len l <= MaxLineSize cfg)) ls ->
  forall (fuel : nat) (now : Time) (rest : bytes),
    readLoop (length ls + fuel)%nat cfg
             (Bufio.mkReader N (concat (map enc ls) ++ rest)) now
    = match readLoop fuel cfg (Bufio.mkReader N rest) (length ls + now)%nat with
      | Some (more, st) => Some (stamp now ls ++ more, st)
      | None => None
      end.
Proof.
  induction 1 as [| l ls [Hrd Hmax] _ IH]; intros fuel now rest.
  - simpl. destruct (readLoop fuel cfg _ now) as [[more st] |]; reflexivity.
  - cbn [length Nat.add map concat readLoop].
    rewrite <- app_assoc, Hrd, (emitLine_whole cfg l now Hmax), IH.
    rewrite Nat.add_succ_r.
    destruct (readLoop fuel cfg _ _) as [[more st] |]; reflexivity.
Qed.

Lemma readLoop_at_eof (cfg : Config) (fuel : nat) (now : Time) :
  readLoop (S fuel) cfg (Bufio.mkReader Bufio.defaultBufSize []) now
  = Some ([], atEnd cfg).
Proof.
  cbn [readLoop]. unfold readLine.
  rewrite BufioFacts.ReadLine_eof by (unfold Bufio.defaultBufSize; lia).
  cbn [isEOF]. unfold atEnd. destruct (Follow cfg); reflexivity.
Qed.

Lemma plainLine_reads (cfg : Config) (ls : list bytes) :
  Forall (plainLine cfg) ls ->
  Forall (fun l =>
            (forall rest,
               readLine (Bufio.mkReader Bufio.defaultBufSize ((l ++ [LF]) ++ rest))
               = (Some l, None, Bufio.mkReader Bufio.defaultBufSize rest))
            /\ (MaxLineSize cfg <= 0 \/ len l <= MaxLineSize cfg)) ls.
Proof.
  intros H. eapply Forall_impl; [| exact H].
  intros l (Hin & Hlen & Hcr & Hmax). split; [| exact Hmax].
  intros rest. rewrite <- app_assoc. apply readLine_line; assumption.
Qed.

(** The run of a session on a file that exists, for a [Location] that is
    not negative: the driver reads from that offset on. *)
Lemma tailFileSync_from_offset
    (fs : FileSystem) (filename : string) (cfg : Config) (f : bytes) :
  fs filename = inl f ->
  ReOpen cfg && negb (Follow cfg) = false ->
  0 <= Location cfg ->
  exists t,
    TailFile fs filename cfg = mkStarted (RetTail t) true
    /\ forall fuel,
         tailFileSync fuel fs t
         = readLoop fuel cfg
             (Bufio.NewReader (skipn (Z.to_nat (Location cfg)) f)) O.
Proof.
  intros Hfs Hv Hloc.
  assert (Hst : seekTarget (Location cfg) = (Location cfg, SEEK_SET)).
  { unfold seekTarget.
    replace (Location cfg >=? 0) with true by (symmetry; apply Z.geb_le; lia).
    reflexivity. }
  assert (Hseek : Seek f (Location cfg) SEEK_SET = inl (Location cfg)).
  { unfold Seek, SEEK_SET. simpl Z.eqb. cbn iota.
    replace (Location cfg <? 0) with false by (symmetry; apply Z.ltb_ge; lia).
    reflexivity. }
  unfold TailFile. rewrite Hv, Hfs.
  destruct (MustExist cfg) eqn:HM; eexists; (split; [reflexivity |]);
    intros fuel; unfold tailFileSync, reopen;
    cbn [config file Filename]; rewrite HM, ?Hfs, Hst, Hseek; reflexivity.
Qed.

Lemma skipn_len_app (u v : bytes) : skipn (Z.to_nat (len u)) (u ++ v) = v.
Proof.
  unfold len. rewrite Nat2Z.id, skipn_app, Nat.sub_diag, skipn_all.
  reflexivity.
Qed.

(** X8: with [Location] the length in bytes of the first lines of a file
    of complete plain lines, the session skips those lines and sends
    exactly the ones after them, in order, one clock reading a line. *)
Theorem location_skips_prefix
    (fs : FileSystem) (filename : string) (cfg : Config)
    (skipped ls : list bytes) :
  fs filename = inl (fileOfLines skipped ++ fileOfLines ls) ->
  ReOpen cfg && negb (Follow cfg) = false ->
  Location cfg = len (fileOfLines skipped) ->
  Forall (plainLine cfg) ls ->
  exists t,
    TailFile fs filename cfg = mkStarted (RetTail t) true
    /\ forall fuel, (length ls < fuel)%nat ->
         tailFileSync fuel fs t = Some (stamp O ls, atEnd cfg).
Proof.
  intros Hfs Hv Hloc Hls.
  destruct (tailFileSync_from_offset fs filename cfg _ Hfs Hv)
    as (t & Hstart & Hrun).
  { rewrite Hloc. apply len_nonneg. }
  exists t. split; [exact Hstart |]. intros fuel Hf.
  rewrite Hrun, Hloc, skipn_len_app. unfold Bufio.NewReader.
  replace fuel with (length ls + S (fuel - S (length ls)))%nat by lia.
  rewrite <- (app_nil_r (fileOfLines ls)). unfold fileOfLines.
  rewrite (readLoop_steps cfg _ (fun l => l ++ [LF]) ls
             (plainLine_reads cfg ls Hls)).
  rewrite readLoop_at_eof, app_nil_r. reflexivity.
Qed.

Lemma location_skips_prefix_witness :
  exists t,
    TailFile (fun _ => inl (fileOfLines [b "hello"] ++ fileOfLines [b "world"]))
             "test.txt" (mkConfig 6 false false true false 0)
    = mkStarted (RetTail t) true
    /\ forall fuel, (length [b "world"] < fuel)%nat ->
         tailFileSync fuel
           (fun _ => inl (fileOfLines [b "hello"] ++ fileOfLines [b "world"])) t
         = Some (stamp O [b "world"],
                 atEnd (mkConfig 6 false false true false 0)).
Proof.
  apply (location_skips_prefix
           (fun _ => inl (fileOfLines [b "hello"] ++ fileOfLines [b "world"]))
           "test.txt" (mkConfig 6 false false true false 0)
           [b "hello"] [b "world"]);
    [reflexivity | reflexivity | reflexivity |].
  constructor; [| constructor]. unfold plainLine.
  split; [simpl; unfold LF; intuition discriminate |].
  split; [unfold Bufio.defaultBufSize; simpl; lia |].
  split; [reflexivity | left; simpl; lia].
Defined.

(** X9: with [Location] the length of the file, the seek is to the end
    of the file and the first read meets the end: no line is sent, and
    the session closes without [Follow] and waits for changes with it. *)
Theorem location_at_end
    (fs : FileSystem) (filename : string) (cfg : Config) (f : bytes) :
  fs filename = inl f ->
  ReOpen cfg && negb (Follow cfg) = false ->
  Location cfg = len f ->
  exists t,
    TailFile fs filename cfg = mkStarted (RetTail t) true
    /\ forall fuel, tailFileSync (S fuel) fs t = Some ([], atEnd cfg).
Proof.
  intros Hfs Hv Hloc. pose proof (len_nonneg f) as Hn.
  destruct (tailFileSync_from_offset fs filename cfg f Hfs Hv ltac:(lia))
    as (t & Hstart & Hrun).
  exists t. split; [exact Hstart |]. intros fuel.
  rewrite Hrun, skipn_all2 by (unfold len in Hloc; lia).
  apply readLoop_at_eof.
Qed.

Lemma location_at_end_witness :
  exists t,
    TailFile (fun _ => inl (b "hello")) "f" (mkConfig 5 true false false false 0)
    = mkStarted (RetTail t) true
    /\ forall fuel,
         tailFileSync (S fuel) (fun _ => inl (b "hello")) t
         = Some ([], atEnd (mkConfig 5 true false false false 0)).
Proof.
  apply (location_at_end (fun _ => inl (b "hello")) "f"
           (mkConfig 5 true false false false 0) (b "hello"));
    reflexivity.
Defined.


Lemma readLine_partial (n : nat) (tail : bytes) :
  tail <> [] -> ~ In LF tail -> (length tail < n)%nat ->
  readLine (Bufio.mkReader n tail) = (Some tail, None, Bufio.mkReader n []).
Proof.
  intros Hne Hn Hlen. unfold readLine, Bufio.ReadLine, Bufio.ReadSlice.
  cbn [Bufio.size Bufio.unread].
  rewrite (firstn_all2 (n:=n) tail) by lia.
  rewrite (BufioMore.indexByte_notin tail LF Hn).
  replace (n <=? length tail)%nat with false
    by (symmetry; apply Nat.leb_gt; lia).
  replace (len tail =? 0) with false.
  2:{ symmetry. apply Z.eqb_neq. unfold len.
      destruct tail; [congruence | simpl; lia]. }
  rewrite (BufioMore.endsWith_notin tail LF Hn). reflexivity.
Qed.

Lemma readLine_crlf (n : nat) (l rest : bytes) :
  ~ In LF l -> (S (length l) < n)%nat ->
  readLine (Bufio.mkReader n ((l ++ [CR; LF]) ++ rest))
  = (Some l, None, Bufio.mkReader n rest).
Proof.
  intros Hn Hlen. unfold readLine, Bufio.ReadLine.
  replace ((l ++ [CR; LF]) ++ rest) with ((l ++ [CR]) ++ LF :: rest)
    by (rewrite <- !app_assoc; reflexivity).
  rewrite BufioFacts.ReadSlice_line.
  2:{ intros Hin. apply in_app_or in Hin. destruct Hin as [Hin | [Hin | []]];
        [tauto | discriminate Hin]. }
  2:{ rewrite length_app. simpl. lia. }
  assert (Hl : len ((l ++ [CR]) ++ [LF]) = len l + 2).
  { rewrite !len_app. change (len [CR]) with 1. change (len [LF]) with 1. lia. }
  pose proof (len_nonneg l) as Hnn.
  replace (len ((l ++ [CR]) ++ [LF]) =? 0) with false
    by (symmetry; apply Z.eqb_neq; lia).
  rewrite BufioFacts.endsWith_last, removelast_last,
    BufioFacts.endsWith_last, Hl.
  replace (1 <? len l + 2) with true by (symmetry; apply Z.ltb_lt; lia).
  cbn [andb]. unfold slice.
  replace (Z.to_nat (len l + 2 - 2 - 0)) with (length l) by (unfold len; lia).
  simpl. rewrite <- !app_assoc, firstn_app, Nat.sub_diag, firstn_all.
  simpl. rewrite app_nil_r. reflexivity.
Qed.

(** The run of a session started with [Location = -1] on a file that
    exists: the driver reads the file from its first byte. *)
Lemma tailFileSync_from_start
    (fs : FileSystem) (filename : string) (cfg : Config) (f : bytes) :
  fs filename = inl f ->
  ReOpen cfg && negb (Follow cfg) = false ->
  Location cfg = -1 ->
  exists t,
    TailFile fs filename cfg = mkStarted (RetTail t) true
    /\ forall fuel,
         tailFileSync fuel fs t
         = readLoop fuel cfg (Bufio.mkReader Bufio.defaultBufSize f) O.
Proof.
  intros Hfs Hv Hloc.
  destruct (tailFileSync_on_file fs filename cfg f Hfs Hv)
    as (t & Hstart & Hrun).
  { rewrite Hloc. vm_compute. split; discriminate. }
  exists t. split; [exact Hstart |]. intros fuel.
  rewrite Hrun, Hloc. reflexivity.
Qed.

(** X10: a last line that has no newline yet is sent all the same when
    the read meets the end of the file: for a file of complete plain
    lines followed by a non-empty unterminated rest that fits in the
    buffer, the session sends the lines and then the rest, as a line of
    its own. *)
Theorem trailing_partial_line_is_sent
    (fs : FileSystem) (filename : string) (cfg : Config)
    (ls : list bytes) (tail : bytes) :
  fs filename = inl (fileOfLines ls ++ tail) ->
  ReOpen cfg && negb (Follow cfg) = false ->
  Location cfg = -1 ->
  Forall (plainLine cfg) ls ->
  tail <> [] -> ~ In LF tail -> (length tail < 4096)%nat ->
  MaxLineSize cfg <= 0 \/ len tail <= MaxLineSize cfg ->
  exists t,
    TailFile fs filename cfg = mkStarted (RetTail t) true
    /\ forall fuel, (S (length ls) < fuel)%nat ->
         tailFileSync fuel fs t = Some (stamp O (ls ++ [tail]), atEnd cfg).
Proof.
  intros Hfs Hv Hloc Hls Hne Hn Hlen Hmax.
  destruct (tailFileSync_from_start fs filename cfg _ Hfs Hv Hloc)
    as (t & Hstart & Hrun).
  exists t. split; [exact Hstart |]. intros fuel Hf.
  rewrite Hrun.
  replace fuel with (length ls + S (S (fuel - S (S (length ls)))))%nat by lia.
  unfold fileOfLines.
  rewrite (readLoop_steps cfg _ (fun l => l ++ [LF]) ls
             (plainLine_reads cfg ls Hls)).
  cbn [readLoop].
  rewrite (readLine_partial _ tail Hne Hn) by exact Hlen.
  rewrite (emitLine_whole cfg tail _ Hmax).
  unfold readLine.
  rewrite BufioFacts.ReadLine_eof by (unfold Bufio.defaultBufSize; lia).
  cbn [isEOF]. rewrite stamp_app. cbn [stamp]. rewrite Nat.add_0_r.
  unfold atEnd. destruct (Follow cfg); reflexivity.
Qed.


Lemma trailing_partial_line_is_sent_witness :
  exists t,
    TailFile (fun _ => inl (fileOfLines [b "fin"] ++ b "he")) "test.txt"
             (mkConfig (-1) true false false false 3)
    = mkStarted (RetTail t) true
    /\ forall fuel, (S (length [b "fin"]) < fuel)%nat ->
         tailFileSync fuel (fun _ => inl (fileOfLines [b "fin"] ++ b "he")) t
         = Some (stamp O ([b "fin"] ++ [b "he"]),
                 atEnd (mkConfig (-1) true false false false 3)).
Proof.
  apply (trailing_partial_line_is_sent
           (fun _ => inl (fileOfLines [b "fin"] ++ b "he")) "test.txt"
           (mkConfig (-1) true false false false 3) [b "fin"] (b "he"));
    try reflexivity.
  - constructor; [| constructor]. unfold plainLine.
    split; [simpl; unfold LF; intuition discriminate |].
    split; [unfold Bufio.defaultBufSize; simpl; lia |].
    split; [reflexivity | right; vm_compute; discriminate].
  - discriminate.
  - simpl. unfold LF. intuition discriminate.
  - apply Nat.ltb_lt. vm_compute. reflexivity.
  - right. vm_compute. discriminate.
Defined.

(** X11: for a file whose lines end in a carriage return and a newline,
    each line with its carriage return fitting in the buffer, the session
    sends the lines without either byte, in order. *)
Theorem crlf_lines_are_stripped
    (fs : FileSystem) (filename : string) (cfg : Config) (ls : list bytes) :
  fs filename = inl (fileOfLinesCRLF ls) ->
  ReOpen cfg && negb (Follow cfg) = false ->
  Location cfg = -1 ->
  Forall (fun l => ~ In LF l /\ (S (length l) < 4096)%nat
                   /\ (MaxLineSize cfg <= 0 \/ len l <= MaxLineSize cfg)) ls ->
  exists t,
    TailFile fs filename cfg = mkStarted (RetTail t) true
    /\ forall fuel, (length ls < fuel)%nat ->
         tailFileSync fuel fs t = Some (stamp O ls, atEnd cfg).
Proof.
  intros Hfs Hv Hloc Hls.
  destruct (tailFileSync_from_start fs filename cfg _ Hfs Hv Hloc)
    as (t & Hstart & Hrun).
  exists t. split; [exact Hstart |]. intros fuel Hf.
  rewrite Hrun.
  replace fuel with (length ls + S (fuel - S (length ls)))%nat by lia.
  rewrite <- (app_nil_r (fileOfLinesCRLF ls)). unfold fileOfLinesCRLF.
  rewrite (readLoop_steps cfg _ (fun l => l ++ [CR; LF]) ls).
  - rewrite readLoop_at_eof, app_nil_r. reflexivity.
  - eapply Forall_impl; [| exact Hls].
    intros l (Hn & Hlen & Hmax). split; [| exact Hmax].
    intros rest. apply readLine_crlf; assumption.
Qed.

Lemma crlf_lines_are_stripped_witness :
  exists t,
    TailFile (fun _ => inl (fileOfLinesCRLF [b "hello"; b "world"])) "f"
             (mkConfig (-1) false false false false 0)
    = mkStarted (RetTail t) true
    /\ forall fuel, (length [b "hello"; b "world"] < fuel)%nat ->
         tailFileSync fuel
           (fun _ => inl (fileOfLinesCRLF [b "hello"; b "world"])) t
         = Some (stamp O [b "hello"; b "world"],
                 atEnd (mkConfig (-1) false false false false 0)).
Proof.
  apply (crlf_lines_are_stripped
           (fun _ => inl (fileOfLinesCRLF [b "hello"; b "world"])) "f"
           (mkConfig (-1) false false false false 0) [b "hello"; b "world"]);
    try reflexivity.
  apply Forall_forall. intros l [<- | [<- | []]];
    (split; [simpl; unfold LF; intuition discriminate |]);
    (split; [apply Nat.ltb_lt; vm_compute; reflexivity | left; simpl; lia]).
Defined.

End TailMore.

(* ===================================================================== *)
(* Splitting the lines of a file                                         *)
(* ===================================================================== *)

Module TailSplit.
Import Tail TailFacts TailMore.








End TailSplit.

(* ===================================================================== *)
(* Further properties of the driver task                                 *)
(* ===================================================================== *)

Module DriverMore.
Import Tail Driver DriverFacts.

Ltac step_cases Hstep a st :=
  unfold step in Hstep;
  destruct a as [res | res | line err | | | res | | | err];
  destruct (pc st) eqn:?; split_step Hstep; injection Hstep as <-.

Lemma step_budget (cfg : Config) (st st' : State) (a : Action) :
  dying st = true -> step cfg st a = Some st' ->
  dying st' = true
  /\ (budget (pc st') + (if isRead a then 1 else 0) <= budget (pc st))%nat.
Proof.
  intros Hdy Hstep.
  step_cases Hstep a st; try discriminate Hdy;
    try match goal with |- context [deliver _ ?q' _] => destruct q' end;
    simpl;
    repeat match goal with H : pc _ = _ |- _ => rewrite H end;
    simpl; split; solve [reflexivity | assumption | lia].
Qed.

Lemma reads_after_kill (cfg : Config) (trace : list Action) :
  forall st st',
    dying st = true -> exec cfg st trace = Some st' ->
    dying st' = true
    /\ (budget (pc st') + countReads trace <= budget (pc st))%nat.
Proof.
  induction trace as [| a trace IH]; intros st st' Hdy Hx; simpl in Hx.
  - injection Hx as <-. split; [exact Hdy | unfold countReads; simpl; lia].
  - destruct (step cfg st a) as [st1 |] eqn:Hs; [| discriminate].
    destruct (step_budget cfg st st1 a Hdy Hs) as (Hdy1 & Hb1).
    destruct (IH st1 st' Hdy1 Hx) as (Hdy' & Hb').
    split; [exact Hdy' |].
    unfold countReads in *. simpl. destruct (isRead a); simpl in *; lia.
Qed.

(** X13: once [Kill] was called, the driver reads at most one more line
    before it exits, whatever the file, the watcher and the consumer do;
    and none when it is in a send or at the check that ends an
    iteration. *)
Theorem at_most_one_read_after_kill
    (cfg : Config) (st st' : State) (trace : list Action) :
  dying st = true -> exec cfg st trace = Some st' ->
  (countReads trace <= 1)%nat
  /\ (countReads trace <= budget (pc st))%nat.
Proof.
  intros Hdy Hx.
  destruct (reads_after_kill cfg trace st st' Hdy Hx) as (_ & Hb).
  assert (budget (pc st) <= 1)%nat by (destruct (pc st); simpl; lia).
  lia.
Qed.

Lemma at_most_one_read_after_kill_witness :
  exists st',
    exec (mkConfig (-1) true false false false 0)
         (kill None (goto AtRead (init (mkConfig (-1) true false false false 0))))
         [ReadRes (Some (b "x")) None; Recv; CheckDying]
    = Some st'
    /\ (countReads [ReadRes (Some (b "x")) None; Recv; CheckDying] <= 1)%nat.
Proof.
  eexists. split; [reflexivity |].
  eapply (at_most_one_read_after_kill (mkConfig (-1) true false false false 0)
            (kill None (goto AtRead (init (mkConfig (-1) true false false false 0)))));
    reflexivity.
Defined.

Lemma emitted_cons (cfg : Config) (now : Time) (a : Action) (tr : list Action) :
  emitted cfg now (a :: tr)
  = emitted cfg now [a]
    ++ emitted cfg (if isRead a then S now else now) tr.
Proof.
  destruct a as [res | res | [line |] [err |] | | | res | | | err];
    simpl; try reflexivity.
  rewrite app_nil_r. reflexivity.
Qed.

Lemma step_emitted (cfg : Config) (st st' : State) (a : Action) :
  step cfg st a = Some st' ->
  received st' ++ pending st'
  = (received st ++ pending st) ++ emitted cfg (now st) [a]
  /\ now st' = (if isRead a then S (now st) else now st).
Proof.
  intros Hstep. unfold pending.
  step_cases Hstep a st;
    try match goal with |- context [deliver _ ?q' _] => destruct q' end;
    simpl;
    repeat match goal with
           | H : pc _ = _ |- _ => rewrite H
           | H : emitLine _ _ _ = _ |- _ => rewrite H
           end;
    simpl; rewrite ?app_nil_r, <- ?app_assoc; simpl;
    split; reflexivity.
Qed.

Lemma exec_emitted (cfg : Config) (trace : list Action) :
  forall st st',
    exec cfg st trace = Some st' ->
    received st' ++ pending st'
    = (received st ++ pending st) ++ emitted cfg (now st) trace.
Proof.
  induction trace as [| a trace IH]; intros st st' Hx; simpl in Hx.
  - injection Hx as <-. simpl. rewrite app_nil_r. reflexivity.
  - destruct (step cfg st a) as [st1 |] eqn:Hs; [| discriminate].
    destruct (step_emitted cfg st st1 a Hs) as (H1 & H2).
    rewrite (IH st1 st' Hx), H1, H2, (emitted_cons cfg (now st) a trace).
    rewrite <- !app_assoc. reflexivity.
Qed.

(** X14: in every run of a session, the lines the consumer has received,
    followed by those of the send in progress, are exactly the lines put
    out for the reads so far, in the order of the reads and with one
    clock reading a read: nothing is dropped, repeated or reordered, also
    across a reopen or a call of [Kill]. *)
Theorem received_in_read_order
    (cfg : Config) (trace : list Action) (st : State) :
  exec cfg (init cfg) trace = Some st ->
  received st ++ pending st = emitted cfg O trace.
Proof.
  intros Hx. rewrite (exec_emitted cfg trace (init cfg) st Hx).
  unfold init, pending. destruct (MustExist cfg); reflexivity.
Qed.

Lemma received_in_read_order_witness :
  exists st,
    exec (mkConfig (-1) true false false false 3)
         (init (mkConfig (-1) true false false false 3))
         [Reopen None; SeekRes None; ReadRes (Some (b "hello")) None; Recv]
    = Some st
    /\ received st ++ pending st
       = emitted (mkConfig (-1) true false false false 3) O
           [Reopen None; SeekRes None; ReadRes (Some (b "hello")) None; Recv].
Proof.
  eexists. split; [reflexivity |].
  apply (received_in_read_order (mkConfig (-1) true false false false 3)
           [Reopen None; SeekRes None; ReadRes (Some (b "hello")) None; Recv]).
  reflexivity.
Defined.

Lemma step_quiet (cfg : Config) (st st' : State) (a : Action) :
  reason st = None -> quiet a = true -> step cfg st a = Some st' ->
  reason st' = None.
Proof.
  intros Hr Hq Hstep.
  step_cases Hstep a st; try discriminate Hq;
    try match goal with |- context [deliver _ ?q' _] => destruct q' end;
    simpl; rewrite ?Hr; try reflexivity;
    simpl in Hq;
    first [congruence | destruct err; [discriminate Hq | reflexivity]].
Qed.

(** X15: a run in which no call of the driver fails (the reads return
    lines or [io.EOF]) and every [Kill] carries nil records no error:
    when the task is done, [Wait], and so [Stop], returns nil. *)
Theorem clean_run_returns_nil
    (cfg : Config) (trace : list Action) (st : State) :
  exec cfg (init cfg) trace = Some st ->
  forallb quiet trace = true ->
  reason st = None /\ (done st = true -> Wait st = Some None).
Proof.
  intros Hx Hq.
  assert (Hr : reason st = None).
  { assert (Hgen : forall tr s s', reason s = None ->
                     forallb quiet tr = true ->
                     exec cfg s tr = Some s' -> reason s' = None).
    { induction tr as [| a tr IH]; simpl; intros s s' Hs Hall Hex.
      - injection Hex as <-. exact Hs.
      - apply andb_prop in Hall. destruct Hall as [Ha Hall].
        destruct (step cfg s a) as [s1 |] eqn:Hst; [| discriminate].
        apply (IH s1 s'); [| exact Hall | exact Hex].
        apply (step_quiet cfg s s1 a Hs Ha Hst). }
    apply (Hgen trace (init cfg) st); [| exact Hq | exact Hx].
    unfold init. destruct (MustExist cfg); reflexivity. }
  split; [exact Hr |].
  intros Hd. unfold Wait. rewrite Hd, Hr. reflexivity.
Qed.

Lemma clean_run_returns_nil_witness :
  exists st,
    exec (mkConfig (-1) true false false false 0)
         (init (mkConfig (-1) true false false false 0))
         [Reopen None; SeekRes None; ReadRes None (Some EOF); Kill None;
          SelectDying]
    = Some st
    /\ reason st = None /\ (done st = true -> Wait st = Some None).
Proof.
  eexists. split; [reflexivity |].
  apply (clean_run_returns_nil (mkConfig (-1) true false false false 0)
           [Reopen None; SeekRes None; ReadRes None (Some EOF); Kill None;
            SelectDying]); reflexivity.
Defined.

(** X16: after the driver has exited, nothing but [Kill] can happen: the
    consumer receives no further line, the task stays done, the output
    stream and the file are not closed again, and a [Kill(nil)], as a
    second [Stop] makes, leaves what [Wait] returns as it was. *)
Theorem exited_is_final
    (cfg : Config) (st st' : State) (a : Action) :
  pc st = Exited -> step cfg st a = Some st' ->
  isKill a = true
  /\ pc st' = Exited
  /\ done st' = done st
  /\ received st' = received st
  /\ linesCloses st' = linesCloses st
  /\ closes st' = closes st
  /\ (a = Kill None -> Wait st' = Wait st).
Proof.
  intros Hpc Hstep. unfold step in Hstep. rewrite Hpc in Hstep.
  destruct a as [res | res | line err | | | res | | | err];
    split_step Hstep; injection Hstep as <-.
  simpl. repeat split; try assumption.
  intros Hk. injection Hk as ->. unfold Wait. simpl.
  destruct (reason st); reflexivity.
Qed.

Lemma exited_is_final_witness :
  exists st st',
    exec (mkConfig (-1) false false false false 0)
         (init (mkConfig (-1) false false false false 0))
         [Reopen None; SeekRes None; ReadRes None (Some EOF)]
    = Some st
    /\ step (mkConfig (-1) false false false false 0) st (Kill None) = Some st'
    /\ pc st' = Exited
    /\ received st' = received st.
Proof.
  pose (cfg := mkConfig (-1) false false false false 0).
  pose (st := ret (close (goto AtRead (goto AtSeek
                (reopened None (init cfg)))))).
  exists st, (kill None st).
  split; [reflexivity |]. split; [reflexivity |].
  destruct (exited_is_final cfg st (kill None st) (Kill None)
              eq_refl eq_refl) as (_ & H1 & _ & H2 & _).
  split; [exact H1 | exact H2].
Defined.

(** X17: a driver that is in a send when [Kill] was called exits as soon
    as the consumer has received the lines of that send: after as many
    receives as lines are left, the check that ends the iteration closes
    the stream and the task is done, with exactly those lines delivered
    beyond what was received before. *)
Theorem drained_send_then_exit (cfg : Config) (q : list Line) :
  forall st,
    pc st = AtSend q -> q <> [] -> dying st = true ->
    exists st',
      exec cfg st (repeat Recv (length q) ++ [CheckDying]) = Some st'
      /\ pc st' = Exited
      /\ done st' = true
      /\ received st' = received st ++ q
      /\ linesCloses st' = S (linesCloses st).
Proof.
  induction q as [| l q IH]; intros st Hpc Hne Hdy; [congruence |].
  cbn [length repeat app exec]. unfold step at 1. rewrite Hpc.
  destruct q as [| l2 q'].
  - cbn [length repeat app exec]. unfold step, deliver. cbn [pc dying].
    rewrite Hdy. eexists. split; [reflexivity |]. simpl. auto.
  - destruct (IH (deliver l (l2 :: q') st)) as (st' & Hx & H1 & H2 & H3 & H4);
      [reflexivity | discriminate | exact Hdy |].
    exists st'. split; [exact Hx |]. repeat split; try assumption.
    + rewrite H3. simpl. rewrite <- app_assoc. reflexivity.
Qed.

Lemma drained_send_then_exit_witness :
  exists st st',
    exec (mkConfig (-1) true false false false 3)
         (init (mkConfig (-1) true false false false 3))
         [Reopen None; SeekRes None; ReadRes (Some (b "hello")) None; Kill None]
    = Some st
    /\ exec (mkConfig (-1) true false false false 3) st
            (repeat Recv 2 ++ [CheckDying]) = Some st'
    /\ done st' = true
    /\ received st' = [mkLine (b "hel") 0%nat; mkLine (b "lo") 0%nat].
Proof.
  eexists.
  destruct (drained_send_then_exit (mkConfig (-1) true false false false 3)
              [mkLine (b "hel") 0%nat; mkLine (b "lo") 0%nat]
              (kill None
                 (goto (AtSend [mkLine (b "hel") 0%nat; mkLine (b "lo") 0%nat])
                    (tick (goto AtRead (goto AtSeek (reopened None
                       (init (mkConfig (-1) true false false false 3))))))))
              eq_refl ltac:(discriminate) eq_refl)
    as (st' & Hx & _ & Hd & Hr & _).
  exists st'. split; [reflexivity |]. split; [exact Hx |].
  split; [exact Hd | exact Hr].
Defined.

Lemma step_not_following (cfg : Config) (st st' : State) (a : Action) :
  Follow cfg = false ->
  watching st = false /\ pc st <> AtSelect ->
  step cfg st a = Some st' ->
  watching st' = false /\ pc st' <> AtSelect.
Proof.
  intros HF [Hw Hpc] Hstep.
  step_cases Hstep a st; try congruence;
    try match goal with |- context [deliver _ ?q' _] => destruct q' end;
    simpl; split; solve [assumption | discriminate | congruence].
Qed.

(** X23: without [Follow], the driver never asks the watcher for change
    events and never waits in the select: in every state of every run
    [changes] is nil and the driver is elsewhere, so that the first end
    of file makes it close and exit. *)
Theorem not_following_never_waits
    (cfg : Config) (trace : list Action) (st : State) :
  Follow cfg = false ->
  exec cfg (init cfg) trace = Some st ->
  watching st = false /\ pc st <> AtSelect
  /\ (forall line, pc st = AtRead ->
        exists st', step cfg st (ReadRes line (Some EOF)) = Some st'
                    /\ done st' = true /\ reason st' = reason st).
Proof.
  intros HF Hx.
  assert (Hgen : forall tr s s', watching s = false /\ pc s <> AtSelect ->
                   exec cfg s tr = Some s' ->
                   watching s' = false /\ pc s' <> AtSelect).
  { induction tr as [| a tr IH]; simpl; intros s s' Hs Hex.
    - injection Hex as <-. exact Hs.
    - destruct (step cfg s a) as [s1 |] eqn:Hst; [| discriminate].
      apply (IH s1 s'); [| exact Hex].
      apply (step_not_following cfg s s1 a HF Hs Hst). }
  destruct (Hgen trace (init cfg) st) as [Hw Hpc]; [| exact Hx |].
  { unfold init. destruct (MustExist cfg); split;
      solve [reflexivity | discriminate]. }
  split; [exact Hw |]. split; [exact Hpc |].
  intros line Hr. unfold step. rewrite Hr. cbn [isEOF]. rewrite Hw, HF.
  destruct line; eexists; (split; [reflexivity |]); split; reflexivity.
Qed.

Lemma not_following_never_waits_witness :
  exists st,
    exec (mkConfig (-1) false false false false 0)
         (init (mkConfig (-1) false false false false 0))
         [Reopen None; SeekRes None]
    = Some st
    /\ watching st = false /\ pc st <> AtSelect
    /\ (forall line, pc st = AtRead ->
          exists st',
            step (mkConfig (-1) false false false false 0) st
                 (ReadRes line (Some EOF)) = Some st'
            /\ done st' = true /\ reason st' = reason st).
Proof.
  eexists. split; [reflexivity |].
  apply (not_following_never_waits (mkConfig (-1) false false false false 0)
           [Reopen None; SeekRes None]); reflexivity.
Defined.

Lemma step_opens_once (cfg : Config) (st st' : State) (a : Action) :
  ReOpen cfg = false ->
  (opens st <= 1)%nat /\ (pc st = AtStart -> opens st = O) ->
  step cfg st a = Some st' ->
  (opens st' <= 1)%nat /\ (pc st' = AtStart -> opens st' = O).
Proof.
  intros HR [Hle H0] Hstep.
  step_cases Hstep a st; try congruence;
    try match goal with |- context [deliver _ ?q' _] => destruct q' end;
    simpl;
    try (rewrite (H0 eq_refl));
    split; first [lia | discriminate | assumption | intros; lia
                 | intros; congruence].
Qed.

(** X24: without [ReOpen], a session obtains a file handle at most once
    in all its life, from [TailFile] under [MustExist] or from the first
    [reopen] of the driver otherwise. *)
Theorem without_reopen_opens_once
    (cfg : Config) (trace : list Action) (st : State) :
  ReOpen cfg = false ->
  exec cfg (init cfg) trace = Some st ->
  (opens st <= 1)%nat.
Proof.
  intros HR Hx.
  assert (Hgen : forall tr s s',
                   (opens s <= 1)%nat /\ (pc s = AtStart -> opens s = O) ->
                   exec cfg s tr = Some s' ->
                   (opens s' <= 1)%nat /\ (pc s' = AtStart -> opens s' = O)).
  { induction tr as [| a tr IH]; simpl; intros s s' Hs Hex.
    - injection Hex as <-. exact Hs.
    - destruct (step cfg s a) as [s1 |] eqn:Hst; [| discriminate].
      apply (IH s1 s'); [| exact Hex].
      apply (step_opens_once cfg s s1 a HR Hs Hst). }
  destruct (Hgen trace (init cfg) st) as [Hle _]; [| exact Hx | exact Hle].
  unfold init. destruct (MustExist cfg); simpl; split;
    solve [lia | discriminate | reflexivity].
Qed.

Lemma without_reopen_opens_once_witness :
  exists st,
    exec (mkConfig (-1) true false false false 0)
         (init (mkConfig (-1) true false false false 0))
         [Reopen None; SeekRes None; ReadRes None (Some EOF);
          ChangesClosed None]
    = Some st
    /\ (opens st <= 1)%nat.
Proof.
  eexists. split; [reflexivity |].
  apply (without_reopen_opens_once (mkConfig (-1) true false false false 0)
           [Reopen None; SeekRes None; ReadRes None (Some EOF);
            ChangesClosed None]); reflexivity.
Defined.

Lemma exec_app (cfg : Config) (t1 t2 : list Action) :
  forall st,
    exec cfg st (t1 ++ t2)
    = match exec cfg st t1 with
      | Some st1 => exec cfg st1 t2
      | None => None
      end.
Proof.
  induction t1 as [| a t1 IH]; intros st; simpl; [reflexivity |].
  destruct (step cfg st a); [apply IH | reflexivity].
Qed.

(** The consumer taking all the lines of a send. *)
Lemma recv_all (cfg : Config) (q : list Line) :
  forall st,
    q <> [] -> pc st = AtSend q ->
    exec cfg st (repeat Recv (length q))
    = Some (mkState AtCheck (dying st) (reason st) (done st) (linesCloses st)
              (fileOpen st) (opens st) (closes st) (watching st) (now st)
              (received st ++ q)).
Proof.
  induction q as [| l q IH]; intros st Hne Hpc; [congruence |].
  cbn [length repeat exec]. unfold step at 1. rewrite Hpc.
  destruct q as [| l2 q'].
  - reflexivity.
  - rewrite (IH (deliver l (l2 :: q') st)) by (discriminate || reflexivity).
    simpl. rewrite <- app_assoc. reflexivity.
Qed.

(** X12: run with a consumer that receives every line and without any
    call of [Kill], the driver on an unchanging file delivers exactly the
    lines the read loop computes, in order, and stops where it says:
    exited, with the read error if there was one, or waiting in the
    select under [Follow]. *)
Theorem driver_delivers_readLoop (cfg : Config) :
  forall (fuel : nat) (r : Bufio.Reader) (t : Time) (sent : list Line)
         (status : Status) (st : State),
    readLoop fuel cfg r t = Some (sent, status) ->
    pc st = AtRead -> dying st = false -> watching st = false -> now st = t ->
    exists st',
      exec cfg st (schedule fuel cfg r t) = Some st'
      /\ received st' = received st ++ sent
      /\ match status with
         | Closed err =>
             pc st' = Exited /\ done st' = true
             /\ (reason st = None -> reason st' = err)
         | WaitingForChanges => pc st' = AtSelect /\ watching st' = true
         | Panicked msg => pc st' = Crashed msg
         | WaitingForFile => False
         end.
Proof.
  induction fuel as [| fuel IH]; intros r t sent status st Hrun Hpc Hdy Hw Hnow;
    [discriminate |].
  cbn [readLoop schedule] in *.
  destruct (readLine r) as [[[line |] [err |]] r'].
  - (* a read error, with a line *)
    cbn [exec]. unfold step. rewrite Hpc, Hw.
    destruct (isEOF err); [destruct (Follow cfg) |];
      injection Hrun as <- <-; eexists; (split; [reflexivity |]);
      rewrite app_nil_r; simpl; repeat split; try reflexivity;
      intros Hr; rewrite ?Hr; first [reflexivity | assumption].
  - (* a line *)
    destruct (emitLine cfg line t) as [q | msg] eqn:Hem.
    + destruct (readLoop fuel cfg r' (S t)) as [[more st2] |] eqn:Hrec;
        [| discriminate].
      injection Hrun as <- <-.
      cbn [exec]. unfold step at 1. rewrite Hpc, Hnow, Hem.
      destruct q as [| l q].
      * cbn [length repeat app exec]. unfold step at 1.
        cbn [pc goto dying tick]. rewrite Hdy.
        destruct (IH r' (S t) more st2 (goto AtRead (goto AtCheck (tick st)))
                    Hrec eq_refl Hdy Hw ltac:(simpl; congruence))
          as (st' & Hx & Hrecv & Hst).
        exists st'. split; [exact Hx |]. split; [exact Hrecv | exact Hst].
      * rewrite exec_app.
        rewrite (recv_all cfg (l :: q) (goto (AtSend (l :: q)) (tick st)))
          by (discriminate || reflexivity).
        cbn [exec]. unfold step at 1. cbn [pc goto dying tick].
        rewrite Hdy.
        match goal with
        | |- context [exec cfg ?s (schedule fuel cfg r' (S t))] =>
            destruct (IH r' (S t) more st2 s Hrec eq_refl
                        ltac:(simpl; first [reflexivity | assumption])
                        ltac:(simpl; first [reflexivity | assumption])
                        ltac:(simpl; congruence))
              as (st' & Hx & Hrecv & Hst)
        end.
        exists st'. split; [exact Hx |]. split.
        -- rewrite Hrecv. simpl. rewrite <- app_assoc. reflexivity.
        -- exact Hst.
    + injection Hrun as <- <-.
      cbn [exec]. unfold step. rewrite Hpc, Hnow, Hem.
      eexists. split; [reflexivity |]. rewrite app_nil_r.
      split; reflexivity.
  - (* a read error, without a line *)
    cbn [exec]. unfold step. rewrite Hpc, Hw.
    destruct (isEOF err); [destruct (Follow cfg) |];
      injection Hrun as <- <-; eexists; (split; [reflexivity |]);
      rewrite app_nil_r; simpl; repeat split; try reflexivity;
      intros Hr; rewrite ?Hr; first [reflexivity | assumption].
  - (* neither a line nor an error *)
    cbn [exec]. unfold step at 1. rewrite Hpc.
    unfold step at 1. cbn [pc goto dying]. rewrite Hdy.
    destruct (IH r' t sent status (goto AtRead (goto AtCheck st))
                Hrun eq_refl Hdy Hw Hnow)
      as (st' & Hx & Hrecv & Hst).
    exists st'. split; [exact Hx |]. split; [exact Hrecv | exact Hst].
Qed.

Lemma driver_delivers_readLoop_witness :
  exists st',
    exec (mkConfig (-1) false false false false 0)
         (goto AtRead (init (mkConfig (-1) false false false false 0)))
         (schedule 2 (mkConfig (-1) false false false false 0)
            (Bufio.mkReader 16 (fileOfLines [b "a"])) O)
    = Some st'
    /\ received st'
       = received (goto AtRead (init (mkConfig (-1) false false false false 0)))
         ++ [mkLine (b "a") O]
    /\ pc st' = Exited /\ done st' = true
    /\ (reason (goto AtRead (init (mkConfig (-1) false false false false 0)))
        = None -> reason st' = None).
Proof.
  apply (driver_delivers_readLoop (mkConfig (-1) false false false false 0)
           2 (Bufio.mkReader 16 (fileOfLines [b "a"])) O
           [mkLine (b "a") O] (Closed None)
           (goto AtRead (init (mkConfig (-1) false false false false 0))));
    reflexivity.
Defined.

End DriverMore.

(* ===================================================================== *)
(* Stop                                                                  *)
(* ===================================================================== *)

Module DriverStop.
Import Tail Driver DriverFacts DriverMore.

Lemma step_sound (cfg : Config) (st st' : State) (a : Action) :
  sound (pc st) = true -> step cfg st a = Some st' -> sound (pc st') = true.
Proof.
  intros Hs Hstep.
  step_cases Hstep a st;
    try match goal with
        | H : emitLine cfg ?l ?n = Panic _ |- _ =>
            destruct (TailMore.emitLine_spec cfg l n) as (fr & Hfr & _);
            congruence
        end;
    try match goal with |- context [deliver _ ?q' _] => destruct q' end;
    simpl;
    repeat match goal with H : pc _ = _ |- _ => rewrite H in * end;
    solve [reflexivity | assumption].
Qed.

Lemma exec_sound (cfg : Config) (trace : list Action) :
  forall st st',
    sound (pc st) = true -> exec cfg st trace = Some st' ->
    sound (pc st') = true.
Proof.
  induction trace as [| a trace IH]; simpl; intros st st' Hs Hx.
  - injection Hx as <-. exact Hs.
  - destruct (step cfg st a) as [st1 |] eqn:Hst; [| discriminate].
    apply (IH st1 st'); [apply (step_sound cfg st st1 a Hs Hst) | exact Hx].
Qed.

Lemma step_rank (cfg : Config) (st st' : State) (a : Action) :
  dying st = true -> isChange a = false -> step cfg st a = Some st' ->
  dying st' = true
  /\ (rank (pc st') + (if isOwn a then 1 else 0) <= rank (pc st))%nat.
Proof.
  intros Hdy Hc Hstep.
  step_cases Hstep a st; try discriminate Hdy; try discriminate Hc;
    try match goal with |- context [deliver _ ?q' _] => destruct q' end;
    simpl;
    repeat match goal with H : pc _ = _ |- _ => rewrite H end;
    simpl; split; solve [reflexivity | assumption | lia].
Qed.

Lemma exec_rank (cfg : Config) (trace : list Action) :
  forall st st',
    dying st = true -> forallb (fun a => negb (isChange a)) trace = true ->
    exec cfg st trace = Some st' ->
    dying st' = true
    /\ (ownSteps trace + rank (pc st') <= rank (pc st))%nat.
Proof.
  induction trace as [| a trace IH]; simpl; intros st st' Hdy Hno Hx.
  - injection Hx as <-. split; [exact Hdy | unfold ownSteps; simpl; lia].
  - apply andb_prop in Hno. destruct Hno as [Ha Hno].
    apply negb_true_iff in Ha.
    destruct (step cfg st a) as [st1 |] eqn:Hst; [| discriminate].
    destruct (step_rank cfg st st1 a Hdy Ha Hst) as (Hdy1 & Hr1).
    destruct (IH st1 st' Hdy1 Hno Hx) as (Hdy' & Hr').
    split; [exact Hdy' |].
    unfold ownSteps in *. simpl. destruct (isOwn a); simpl in *; lia.
Qed.

Lemma step_received (cfg : Config) (st st' : State) (a : Action) :
  step cfg st a = Some st' ->
  length (received st')
  = (length (received st) + (if isRecv a then 1 else 0))%nat.
Proof.
  intros Hstep.
  step_cases Hstep a st;
    try match goal with |- context [deliver _ ?q' _] => destruct q' end;
    simpl; rewrite ?length_app; simpl; lia.
Qed.

Lemma exec_received (cfg : Config) (trace : list Action) :
  forall st st',
    exec cfg st trace = Some st' ->
    length (received st')
    = (length (received st) + length (filter isRecv trace))%nat.
Proof.
  induction trace as [| a trace IH]; simpl; intros st st' Hx.
  - injection Hx as <-. lia.
  - destruct (step cfg st a) as [st1 |] eqn:Hst; [| discriminate].
    rewrite (IH st1 st' Hx), (step_received cfg st st1 a Hst).
    destruct (isRecv a); simpl; lia.
Qed.

(** A dying driver that has not exited can always go on without a change
    event: by a step of its own or, in a send, by a receive. *)
Lemma dying_progress (cfg : Config) (st : State) :
  sound (pc st) = true -> dying st = true -> pc st <> Exited ->
  exists a st',
    isKill a = false /\ isChange a = false /\ step cfg st a = Some st'.
Proof.
  intros Hs Hdy Hne. unfold step.
  destruct (pc st) as [| | | [| l q] | | | msg |] eqn:Hpc;
    try discriminate Hs; try congruence.
  - exists (Reopen None). eexists. repeat split.
  - exists (SeekRes None). eexists. repeat split.
  - exists (ReadRes None None). eexists. repeat split.
  - exists Recv. eexists. repeat split.
  - exists SelectDying. rewrite Hdy. eexists. repeat split.
  - exists CheckDying. rewrite Hdy. eexists. repeat split.
Qed.

(** C9, amended.  In every state of every run, whatever the calls of
    [Kill] and wherever they fall: the output stream has been closed once
    if the task is done and not at all before, and every file handle
    opened has been closed once, but for the one still held, none being
    held after the exit; [Kill] can always happen and changes nothing but
    the tomb.  A send does not observe a stop request: the driver leaves
    a send only by the consumer receiving the line.  Once [Kill] was
    called, the check that ends a loop iteration can only close and exit;
    a driver that has not exited can always go on, by a step of its own
    once the call it is in returns, or by a receive; and in every
    continuation in which the select takes no case of [changes], the
    driver makes at most four steps of its own, is done when it can make
    no further one, reads at most one more line, and needs no more
    receives than there are lines in the send in progress and in that one
    read. *)
Theorem stop_exits_when_drained
    (cfg : Config) (trace : list Action) (st : State) :
  exec cfg (init cfg) trace = Some st ->
  (linesCloses st = if done st then 1%nat else O)
  /\ opens st = (closes st + (if fileOpen st then 1 else 0))%nat
  /\ (done st = true -> fileOpen st = false)
  /\ (forall err,
        exists st', step cfg st (Kill err) = Some st'
                    /\ dying st' = true
                    /\ done st' = done st
                    /\ linesCloses st' = linesCloses st
                    /\ closes st' = closes st)
  /\ (forall q a st',
        pc st = AtSend q -> isRecv a = false -> step cfg st a = Some st' ->
        pc st' = AtSend q /\ done st' = false)
  /\ (forall a st',
        dying st = true -> pc st = AtCheck -> isKill a = false ->
        step cfg st a = Some st' ->
        a = CheckDying /\ done st' = true)
  /\ (dying st = true -> done st = false ->
      exists a st',
        isKill a = false /\ isChange a = false /\ step cfg st a = Some st')
  /\ (forall tr st',
        dying st = true ->
        forallb (fun a => negb (isChange a)) tr = true ->
        exec cfg st tr = Some st' ->
        (ownSteps tr + rank (pc st') <= rank (pc st))%nat
        /\ (rank (pc st) <= 4)%nat
        /\ (rank (pc st') = O -> done st' = true)
        /\ ((forall a, isKill a = false -> isChange a = false ->
                       step cfg st' a = None) ->
            done st' = true)
        /\ (countReads tr <= 1)%nat
        /\ (length (filter isRecv tr) + length (pending st')
            = length (pending st) + length (emitted cfg (now st) tr))%nat).
Proof.
  intros Hx.
  destruct (Inv_exec cfg trace (init cfg) st (Inv_init cfg) Hx)
    as [Hd Hl Hf Hh].
  assert (Hs : sound (pc st) = true).
  { apply (exec_sound cfg trace (init cfg) st); [| exact Hx].
    unfold init. destruct (MustExist cfg); reflexivity. }
  split; [exact Hl |]. split; [exact Hf |]. split; [exact Hh |].
  split; [| split; [| split; [| split]]].
  - intros err. eexists. split; [reflexivity |]. simpl. auto.
  - intros q a st' Hq Ha Hst.
    destruct (send_waits_for_consumer cfg st st' a q Hq Ha Hst)
      as (Hp & Hd' & _).
    split; [exact Hp |]. rewrite Hd'.
    destruct (done st); [| reflexivity].
    destruct Hd as [Hd _]. specialize (Hd eq_refl). congruence.
  - intros a st' Hdy Hpc Hk Hst. unfold step in Hst. rewrite Hpc in Hst.
    destruct a as [res | res | line err | | | res | | | err];
      try discriminate Hk; split_step Hst; try discriminate Hdy.
    injection Hst as <-. split; reflexivity.
  - intros Hdy Hnd. apply (dying_progress cfg st Hs Hdy).
    intros Hpc. destruct Hd as [_ Hd]. rewrite (Hd Hpc) in Hnd.
    discriminate.
  - intros tr st' Hdy Hno Hxt.
    destruct (exec_rank cfg tr st st' Hdy Hno Hxt) as (Hdy' & Hr).
    destruct (reads_after_kill cfg tr st st' Hdy Hxt) as (_ & Hb).
    assert (Hx' : exec cfg (init cfg) (trace ++ tr) = Some st').
    { rewrite exec_app, Hx. exact Hxt. }
    destruct (Inv_exec cfg (trace ++ tr) (init cfg) st' (Inv_init cfg) Hx')
      as [Hd' _ _ _].
    assert (Hs' : sound (pc st') = true)
      by (apply (exec_sound cfg tr st st' Hs Hxt)).
    split; [exact Hr |].
    split; [destruct (pc st); simpl; lia |].
    split.
    { intros H0. apply Hd'.
      destruct (pc st') as [| | | [| l q] | | | msg |];
        simpl in *; try discriminate; reflexivity. }
    split.
    { intros Hstuck. destruct (done st') eqn:Hdn; [reflexivity |].
      assert (Hne : pc st' <> Exited).
      { intros Hpc. destruct Hd' as [_ Hd']. discriminate (Hd' Hpc). }
      destruct (dying_progress cfg st' Hs' Hdy' Hne)
        as (a & s2 & Hk & Hc & Hst).
      rewrite (Hstuck a Hk Hc) in Hst. discriminate Hst. }
    split.
    { assert (budget (pc st) <= 1)%nat by (destruct (pc st); simpl; lia).
      lia. }
    pose proof (exec_emitted cfg tr st st' Hxt) as He.
    pose proof (exec_received cfg tr st st' Hxt) as Hc.
    apply (f_equal (@length Line)) in He.
    rewrite !length_app in He. lia.
Qed.

Lemma stop_exits_when_drained_witness :
  exists st,
    exec (mkConfig (-1) true false true false 0)
         (init (mkConfig (-1) true false true false 0))
         [SeekRes None; Kill None]
    = Some st
    /\ (dying st = true -> done st = false ->
        exists a st',
          isKill a = false /\ isChange a = false
          /\ step (mkConfig (-1) true false true false 0) st a = Some st')
    /\ (forall tr st',
          dying st = true ->
          forallb (fun a => negb (isChange a)) tr = true ->
          exec (mkConfig (-1) true false true false 0) st tr = Some st' ->
          (ownSteps tr + rank (pc st') <= rank (pc st))%nat
          /\ (rank (pc st) <= 4)%nat
          /\ (rank (pc st') = O -> done st' = true)
          /\ ((forall a, isKill a = false -> isChange a = false ->
                         step (mkConfig (-1) true false true false 0) st' a
                         = None) ->
              done st' = true)
          /\ (countReads tr <= 1)%nat
          /\ (length (filter isRecv tr) + length (pending st')
              = length (pending st)
                + length (emitted (mkConfig (-1) true false true false 0)
                            (now st) tr))%nat).
Proof.
  eexists. split; [reflexivity |].
  apply (stop_exits_when_drained (mkConfig (-1) true false true false 0)
           [SeekRes None; Kill None]).
  reflexivity.
Defined.

End DriverStop.

(* ===================================================================== *)
(* Further properties of watch/polling.go and of the command             *)
(* ===================================================================== *)

Module WatchMore.
Import Watch.

(** The outcomes of one wake. *)
Lemma wake_cases (origFi : FileInfo) (st : PollState) (r : StatResult) :
  wake origFi st r = ([NotifyDeleted], Return)
  \/ (exists err, wake origFi st r = ([], PanicWith err))
  \/ (exists sigs st',
        wake origFi st r = (sigs, Continue st')
        /\ (sigs = [] \/ sigs = [NotifyTruncated] \/ sigs = [NotifyModified])).
Proof.
  unfold wake. destruct r as [fi | err].
  - destruct (negb (SameFile origFi fi)); [left; reflexivity |].
    right. right.
    destruct ((prevSize st >? 0) && (prevSize st >? Size fi));
      [| destruct (negb (ModTime fi =? prevModTime st))];
      eexists; eexists; (split; [reflexivity |]); auto.
  - destruct (IsNotExist err); [left; reflexivity |].
    right. left. eexists. reflexivity.
Qed.

(** X18: over any sequence of wakes, the monitoring goroutine sends at
    most one signal a wake, and a deleted signal only as its last one,
    upon which it returns and the change notifier is closed. *)
Theorem deleted_is_last (origFi : FileInfo) (wakes : list (bool * StatResult)) :
  forall st,
    (length (fst (monitor origFi st wakes)) <= length wakes)%nat
    /\ (In NotifyDeleted (fst (monitor origFi st wakes)) ->
        exists before,
          fst (monitor origFi st wakes) = before ++ [NotifyDeleted]
          /\ ~ In NotifyDeleted before
          /\ snd (monitor origFi st wakes) = Some Return).
Proof.
  induction wakes as [| [dying r] wakes IH]; intros st.
  - simpl. split; [lia | intros []].
  - cbn [monitor]. destruct dying; [simpl; split; [lia | intros []] |].
    destruct (wake_cases origFi st r)
      as [Hw | [(err & Hw) | (sigs & st' & Hw & Hs)]]; rewrite Hw.
    + simpl. split; [lia |]. intros _. exists []. repeat split. intros [].
    + simpl. split; [lia | intros []].
    + destruct (IH st') as (Hlen & Hdel).
      destruct (monitor origFi st' wakes) as [more fin]. cbn [fst snd] in *.
      split.
      * rewrite length_app. simpl.
        destruct Hs as [-> | [-> | ->]]; simpl; lia.
      * intros Hin. apply in_app_or in Hin.
        assert (Hnot : ~ In NotifyDeleted sigs).
        { destruct Hs as [-> | [-> | ->]]; simpl; intuition discriminate. }
        destruct Hin as [Hin | Hin]; [contradiction |].
        destruct (Hdel Hin) as (before & -> & Hb & Hf).
        exists (sigs ++ before). rewrite app_assoc.
        repeat split; [| exact Hf].
        intros Hx. apply in_app_or in Hx. tauto.
Qed.

Lemma deleted_is_last_witness :
  exists before,
    fst (monitor (mkFileInfo 10 5 (1, 42)) (initial (mkFileInfo 10 5 (1, 42)))
           [(false, StatOk (mkFileInfo 12 6 (1, 42)));
            (false, StatErr ErrNotExist);
            (false, StatOk (mkFileInfo 12 6 (1, 42)))])
    = before ++ [NotifyDeleted]
    /\ ~ In NotifyDeleted before
    /\ snd (monitor (mkFileInfo 10 5 (1, 42))
              (initial (mkFileInfo 10 5 (1, 42)))
              [(false, StatOk (mkFileInfo 12 6 (1, 42)));
               (false, StatErr ErrNotExist);
               (false, StatOk (mkFileInfo 12 6 (1, 42)))])
       = Some Return.
Proof.
  apply (deleted_is_last (mkFileInfo 10 5 (1, 42))
           [(false, StatOk (mkFileInfo 12 6 (1, 42)));
            (false, StatErr ErrNotExist);
            (false, StatOk (mkFileInfo 12 6 (1, 42)))]
           (initial (mkFileInfo 10 5 (1, 42)))).
  simpl. right. left. reflexivity.
Defined.

(** X19: as long as the file is never smaller at a wake than it was at
    the wake before, the first compared with the size the watcher
    started from, no truncated signal is sent. *)
Theorem growing_file_never_truncated
    (origFi : FileInfo) (wakes : list (bool * StatResult)) :
  forall st,
    neverShrinks (prevSize st) wakes ->
    ~ In NotifyTruncated (fst (monitor origFi st wakes)).
Proof.
  induction wakes as [| [dying r] wakes IH]; intros st Hgrow.
  - simpl. intros [].
  - cbn [monitor]. destruct dying; [simpl; intros [] |].
    destruct r as [fi | err]; cbn [neverShrinks] in Hgrow.
    + destruct Hgrow as [Hle Hrest]. unfold wake.
      destruct (negb (SameFile origFi fi));
        [simpl; intuition discriminate |].
      replace (prevSize st >? Size fi) with false.
      2:{ symmetry. rewrite Z.gtb_ltb. apply Z.ltb_ge. exact Hle. }
      rewrite andb_false_r.
      destruct (negb (ModTime fi =? prevModTime st));
        match goal with
        | |- context [monitor origFi ?s wakes] =>
            specialize (IH s Hrest);
            destruct (monitor origFi s wakes) as [more fin]
        end;
        cbn [fst] in *; simpl; intuition discriminate.
    + unfold wake. destruct (IsNotExist err); simpl; intuition discriminate.
Qed.

Lemma growing_file_never_truncated_witness :
  ~ In NotifyTruncated
      (fst (monitor (mkFileInfo 10 5 (1, 42))
              (initial (mkFileInfo 10 5 (1, 42)))
              [(false, StatOk (mkFileInfo 12 6 (1, 42)));
               (false, StatOk (mkFileInfo 12 7 (1, 42)))])).
Proof.
  apply (growing_file_never_truncated (mkFileInfo 10 5 (1, 42))
           [(false, StatOk (mkFileInfo 12 6 (1, 42)));
            (false, StatOk (mkFileInfo 12 7 (1, 42)))]
           (initial (mkFileInfo 10 5 (1, 42)))).
  simpl. lia.
Defined.

Lemma SameFile_refl (fi : FileInfo) : SameFile fi fi = true.
Proof. unfold SameFile. rewrite !Z.eqb_refl. reflexivity. Qed.

Lemma monitor_steady (fi : FileInfo) (n : nat) :
  monitor fi (mkPollState (Size fi) (Size fi) (ModTime fi))
          (repeat (false, StatOk fi) n)
  = ([], None).
Proof.
  induction n as [| n IH]; [reflexivity |].
  cbn [repeat monitor]. unfold wake. cbn [prevSize prevModTime].
  rewrite SameFile_refl. cbn [negb].
  replace (Size fi >? Size fi) with false
    by (symmetry; rewrite Z.gtb_ltb; apply Z.ltb_irrefl).
  rewrite andb_false_r, Z.eqb_refl. cbn [negb].
  rewrite IH. reflexivity.
Qed.

(** X20: on a file that stays exactly as it was when [ChangeEvents] was
    called, the goroutine signals modified once, at its first wake, since
    [prevModTime] starts as the zero time, which the time of no file
    equals; it sends nothing at any later wake and keeps running. *)
Theorem unchanged_file_signals_once (fi : FileInfo) (n : nat) :
  statted fi ->
  monitor fi (initial fi) (repeat (false, StatOk fi) (S n))
  = ([NotifyModified], None).
Proof.
  intros Hst. unfold statted in Hst.
  cbn [repeat monitor]. unfold wake, initial. cbn [prevSize prevModTime].
  rewrite SameFile_refl. cbn [negb].
  replace (Size fi >? Size fi) with false
    by (symmetry; rewrite Z.gtb_ltb; apply Z.ltb_irrefl).
  rewrite andb_false_r.
  replace (ModTime fi =? zeroTime) with false
    by (symmetry; apply Z.eqb_neq; exact Hst).
  cbn [negb]. rewrite monitor_steady. reflexivity.
Qed.

Lemma unchanged_file_signals_once_witness :
  monitor (mkFileInfo 10 5 (1, 42)) (initial (mkFileInfo 10 5 (1, 42)))
          (repeat (false, StatOk (mkFileInfo 10 5 (1, 42))) 3)
  = ([NotifyModified], None).
Proof.
  apply (unchanged_file_signals_once (mkFileInfo 10 5 (1, 42)) 2).
  unfold statted, zeroTime. simpl. lia.
Defined.

(** X21: after any number of rounds that find the file absent with the
    tomb alive, during which it goes on waiting, [BlockUntilExists]
    returns at the next round: nil when the stat succeeds, the error of
    the stat when it fails otherwise than by not-found, [ErrDying] when
    the file is absent and the tomb is dying; when the file is absent and
    the tomb alive it waits for the round after.  It never returns a
    not-found error. *)
Theorem BlockUntilExists_result
    (waited rest : list (StatResult * bool)) (r : StatResult) (dying : bool) :
  Forall (fun o => exists e, o = (StatErr e, false) /\ IsNotExist e = true)
         waited ->
  BlockUntilExists waited = None
  /\ BlockUntilExists (waited ++ (r, dying) :: rest)
     = match r with
       | StatOk _ => Some None
       | StatErr err =>
           if IsNotExist err
           then if dying then Some (Some ErrDying) else BlockUntilExists rest
           else Some (Some err)
       end
  /\ (forall rounds e,
        BlockUntilExists rounds = Some (Some e) -> IsNotExist e = false).
Proof.
  intros Hw. split; [| split].
  - induction Hw as [| o waited (e & -> & He) _ IH]; [reflexivity |].
    simpl. rewrite He. exact IH.
  - induction Hw as [| o waited (e & -> & He) _ IH].
    + simpl. destruct r as [fi | err]; [reflexivity |].
      destruct (IsNotExist err); reflexivity.
    + simpl. rewrite He. exact IH.
  - induction rounds as [| [r0 d0] rounds IH]; simpl; intros e H;
      [discriminate |].
    destruct r0 as [fi | err]; [discriminate |].
    destruct (IsNotExist err) eqn:E; cbn [negb] in H.
    + destruct d0; [injection H as <-; reflexivity | exact (IH e H)].
    + injection H as <-. exact E.
Qed.

Lemma BlockUntilExists_result_witness :
  BlockUntilExists [(StatErr ErrNotExist, false); (StatErr ErrNotExist, false)]
  = None
  /\ BlockUntilExists
       ([(StatErr ErrNotExist, false); (StatErr ErrNotExist, false)]
        ++ (StatOk (mkFileInfo 3 1 (1, 7)), false) :: [])
     = Some None.
Proof.
  destruct (BlockUntilExists_result
              [(StatErr ErrNotExist, false); (StatErr ErrNotExist, false)] []
              (StatOk (mkFileInfo 3 1 (1, 7))) false) as (H1 & H2 & _).
  - repeat constructor; eexists; split; reflexivity.
  - split; [exact H1 | exact H2].
Defined.

End WatchMore.

Module CmdFacts.
Import Tail Cmd.

(** X22: whatever flags the command is given, its configuration passes
    the check of [TailFile] and never asks for [MustExist]: the call
    neither panics nor fails, whether the file exists or not, and the
    driver is scheduled.  The session follows exactly when [-f] or [-F]
    is set; polling is used exactly when [-p] is. *)
Theorem command_always_starts
    (fs : FileSystem) (filename : string) (fl : Flags) :
  TailFile fs filename (args2config fl)
  = mkStarted
      (RetTail (mkTail filename (args2config fl)
                  (if orDefault (flag_p fl) false then PollingFileWatcher
                   else InotifyFileWatcher) None))
      true
  /\ Follow (args2config fl)
     = orDefault (flag_f fl) false || orDefault (flag_F fl) false
  /\ ReOpen (args2config fl) = orDefault (flag_F fl) false
  /\ Location (args2config fl) = orDefault (flag_n fl) 0.
Proof.
  destruct fl as [n f F p]. unfold args2config, TailFile.
  cbn [flag_n flag_f flag_F flag_p Location Follow ReOpen MustExist Poll
       MaxLineSize].
  destruct (orDefault F false), (orDefault f false), (orDefault p false);
    repeat split; reflexivity.
Qed.

End CmdFacts.
